(** * Friend-request workflow of the follower-management API

    A shallow embedding of [app/views.py] and [app/serializers.py]: the
    two tables the views read and write (users, friend requests), the
    through table of the [friends] relation, and the view bodies as pure
    functions from a store to a response and a new store. *)

From Stdlib Require Import ZArith Lia String Ascii.
From stdpp Require Import base list gmap strings.

Local Open Scope Z_scope.

(** ** Data model *)

(** [FriendRequest.status]: the views only ever compare it with
    ['pending'] and assign ['accepted'] or ['rejected']. *)
Inductive Status := pending | accepted | rejected.

#[global] Instance Status_eq_dec : EqDecision Status.
Proof. solve_decision. Defined.

(** A row of the user table, with the columns the serializer lists
    ([id], [email], [name]); the password is write-only and is stored
    hashed, so it is not part of the row here. *)
Record User := mkUser {
  id : Z;
  email : string;
  name : string
}.

(** A row of the friend-request table.  The primary key is not a field:
    rows are never deleted and keys are handed out in order, so the
    table is the list of its rows in key order and the key of a row is
    its position. *)
Record FriendRequest := mkFriendRequest {
  from_user : Z;
  to_user : Z;
  status : Status;
  created_at : nat
}.

(** The persistent store.  [friends] is the through table of the
    many-to-many relation: the pair [(u, v)] is the row saying that [v]
    is in [u.friends]. *)
Record Store := mkStore {
  users : list User;
  requests : list FriendRequest;
  friends : gset (Z * Z)
}.

Definition empty_store : Store := mkStore [] [] ∅.

(** [v] is a member of [u]'s friends relation. *)
Definition is_friend (s : Store) (u v : Z) : Prop := (u, v) ∈ friends s.

(** ** Responses *)

Inductive Error :=
  | ValidationError        (* 400 raised by [is_valid(raise_exception=True)] *)
  | NotAuthenticated       (* refused by [permissions.IsAuthenticated] *)
  | InvalidFriendRequest.  (* 400 [{'error': 'Invalid friend request'}] *)

Inductive Result (A : Type) :=
  | Ok (a : A)
  | Err (e : Error).
Arguments Ok {A} a.
Arguments Err {A} e.

(** ** Store primitives *)

Definition set_status (r : FriendRequest) (st : Status) : FriendRequest :=
  mkFriendRequest (from_user r) (to_user r) st (created_at r).

(** [friend_request.save()]: writes the row back under its key. *)
Definition save (pk : nat) (r : FriendRequest) (s : Store) : Store :=
  mkStore (users s) (<[pk := r]> (requests s)) (friends s).

(** Modelled from the spec: [app/models.py], which declares [friends],
    is not among the sources; the spec calls it a symmetric many-to-many
    relation in which one add call also creates the reverse edge.  So
    [user.friends.add(other)] puts both rows in the through table (rows
    already there are kept once). *)
Definition friends_add (user other : Z) (s : Store) : Store :=
  mkStore (users s) (requests s) ({[ (user, other); (other, user) ]} ∪ friends s).

(** The filter of both views:
    [filter(from_user_id=user_id, to_user=request.user, status='pending')].
    [user_id] is [request.data.get('user_id')], [None] when the key is
    absent; a [None] foreign key matches no row. *)
Definition pending_from_to (user_id : option Z) (user : Z) (r : FriendRequest) : Prop :=
  Some (from_user r) = user_id ∧ to_user r = user ∧ status r = pending.

#[global] Instance pending_from_to_dec user_id user r :
  Decision (pending_from_to user_id user r).
Proof. unfold pending_from_to. apply _. Defined.

(** [.first()] on the filtered query set: the matching row of least key,
    with its key, or [None]. *)
Definition filter_first (user_id : option Z) (user : Z) (s : Store)
  : option (nat * FriendRequest) :=
  list_find (pending_from_to user_id user) (requests s).

(** ** Views *)

(** [FriendRequestAcceptView.post] *)
Definition accept_post (s : Store) (user : Z) (user_id : option Z)
  : Result FriendRequest * Store :=
  match filter_first user_id user s with
  | Some (pk, friend_request) =>
      let friend_request := set_status friend_request accepted in
      let s := save pk friend_request s in
      let s := friends_add user (from_user friend_request) s in
      (Ok friend_request, s)
  | None => (Err InvalidFriendRequest, s)
  end.

(** [FriendRequestRejectView.post] *)
Definition reject_post (s : Store) (user : Z) (user_id : option Z)
  : Result FriendRequest * Store :=
  match filter_first user_id user s with
  | Some (pk, friend_request) =>
      let friend_request := set_status friend_request rejected in
      let s := save pk friend_request s in
      (Ok friend_request, s)
  | None => (Err InvalidFriendRequest, s)
  end.

(** The body of a friend-request creation as the client sends it.  The
    serializer declares [from_user] and [status] read-only, so whatever
    the client puts there is dropped before [save]; [to_user] is a
    required primary key that must name a row of [User.objects.all()]. *)
Record SendData := mkSendData {
  data_to_user : option Z;
  data_from_user : option Z;
  data_status : option Status
}.

Definition user_exists (s : Store) (k : Z) : bool :=
  existsb (λ u, id u =? k) (users s).

(** The validated data of [FriendRequestSerializer]: only [to_user]
    survives validation. *)
Definition validated_to_user (s : Store) (d : SendData) : option Z :=
  match data_to_user d with
  | Some k => if user_exists s k then Some k else None
  | None => None
  end.

(** Modelled from the spec: the column default of [status] is declared
    in [app/models.py], which is not among the sources; the spec says a
    request is created with status pending. *)
Definition default_status : Status := pending.

(** [FriendRequestCreateView.post] with its [perform_create]:
    [serializer.save(from_user=self.request.user)].  [now] is the clock
    reading stored in [created_at].  The rate throttle of the view only
    refuses calls before they reach the store, so it is left out. *)
Definition create_post (s : Store) (user : Z) (d : SendData) (now : nat)
  : Result FriendRequest * Store :=
  match validated_to_user s d with
  | Some k =>
      let friend_request := mkFriendRequest user k default_status now in
      (Ok friend_request,
       mkStore (users s) (requests s ++ [friend_request]) (friends s))
  | None => (Err ValidationError, s)
  end.

(** [PendingFriendRequestListView.get_queryset] *)
Definition pending_list (s : Store) (user : Z) : list FriendRequest :=
  filter (λ r, to_user r = user ∧ status r = pending) (requests s).

(** [FriendListView.get_queryset]: [User.objects.filter(friends=user)].
    The query has no ordering; the list stands for the set of rows it
    returns, and only membership in it is used below. *)
Definition friend_list (s : Store) (user : Z) : list User :=
  filter (λ u, (id u, user) ∈ friends s) (users s).

(** ** Search *)

(** Case folding of the store's [iexact] and [icontains] lookups, on the
    ASCII letters. *)
Definition lower_ascii (c : ascii) : ascii :=
  let n := N_of_ascii c in
  if ((65 <=? n) && (n <=? 90))%N then ascii_of_N (n + 32) else c.

Fixpoint lower (x : string) : string :=
  match x with
  | EmptyString => EmptyString
  | String c x' => String (lower_ascii c) (lower x')
  end.

(** [needle] occurs in [hay] at some offset. *)
Fixpoint contains (hay needle : string) : bool :=
  String.prefix needle hay ||
  match hay with
  | EmptyString => false
  | String _ hay' => contains hay' needle
  end.

(** [field__iexact=q] *)
Definition iexact (field q : string) : bool := String.eqb (lower field) (lower q).

(** [field__icontains=q] *)
Definition icontains (field q : string) : bool := contains (lower field) (lower q).

(** [UserSearchView.get_queryset]:
    [filter(Q(email__iexact=q) | Q(name__icontains=q)).exclude(id=user.id)],
    where [q] is [query_params.get('search', '')].  Pagination and the
    framework's own search backend, which the view class also names, act
    on this query set afterwards and are not part of it. *)
Definition search (s : Store) (user : Z) (search_query : string) : list User :=
  filter (λ u, id u ≠ user)
    (filter (λ u, iexact (email u) search_query || icontains (name u) search_query)
       (users s)).

(** ** Registration *)

(** Modelled from the spec: [User.objects.create_user] and the unique
    email column live in [app/models.py], which is not among the
    sources.  Following the spec, creation fails with a validation error
    when a required field is missing or the email is already registered
    (compared without case); the serializer makes [name] optional.  The
    field checks of the serializer framework (email syntax, non-blank
    password) are not modelled: a registration they refuse stores
    nothing, so every store the code can reach is one the model can
    reach.  The key of the new row is the store's choice; it is taken to
    be the next integer, and nothing proved below rests on the numbering
    beyond the keys of the example runs. *)
Definition register_post (s : Store) (em nm pw : option string)
  : Result User * Store :=
  match em, pw with
  | Some e, Some _ =>
      if existsb (λ u, iexact (email u) e) (users s)
      then (Err ValidationError, s)
      else
        let user := mkUser (Z.of_nat (length (users s)) + 1) e (default ""%string nm) in
        (Ok user, mkStore (users s ++ [user]) (requests s) (friends s))
  | _, _ => (Err ValidationError, s)
  end.

(** ** The API as a state machine *)

(** One call of the API.  [acting] is the identity behind the token of
    the call. *)
Inductive Op :=
  | Register (em nm pw : option string)
  | Send (acting : Z) (d : SendData) (now : nat)
  | Accept (acting : Z) (user_id : option Z)
  | Reject (acting : Z) (user_id : option Z).

Inductive Response :=
  | RUser (r : Result User)
  | RRequest (r : Result FriendRequest).

(** [permission_classes = [permissions.IsAuthenticated]]: the view body
    runs only for a registered user. *)
Definition authenticated (s : Store) (acting : Z)
    (view : Result FriendRequest * Store) : Response * Store :=
  if user_exists s acting then (RRequest (fst view), snd view)
  else (RRequest (Err NotAuthenticated), s).

(** One call against the store.  The rate throttle of the send view
    ([throttle_classes = [RateThrottle]], 3 per minute) depends on the
    wall clock and is not modelled: a call it refuses stores nothing and
    corresponds to no call here, so every store the code can reach is
    one [run] can reach, and what holds after every [run] holds of the
    code. *)
Definition step (s : Store) (o : Op) : Response * Store :=
  match o with
  | Register em nm pw =>
      let '(r, s') := register_post s em nm pw in (RUser r, s')
  | Send acting d now => authenticated s acting (create_post s acting d now)
  | Accept acting user_id => authenticated s acting (accept_post s acting user_id)
  | Reject acting user_id => authenticated s acting (reject_post s acting user_id)
  end.

(** The store after a sequence of calls. *)
Definition run (s : Store) (ops : list Op) : Store :=
  foldl (λ s o, snd (step s o)) s ops.

(** The stores the API can be in: those a sequence of calls builds from
    the empty store. *)
Definition reachable (s : Store) : Prop := ∃ ops, s = run empty_store ops.

(** A [Send] addressed to its own sender. *)
Definition self_send (o : Op) : bool :=
  match o with
  | Send acting d _ => bool_decide (data_to_user d = Some acting)
  | _ => false
  end.

(** ** Specification vocabulary *)

(** Row [pk] holds [r], a pending request from [other] to [acting], and
    no row of smaller key is such a request: [r] is the one the store's
    order puts first. *)
Definition first_pending (s : Store) (other acting : Z) (pk : nat) (r : FriendRequest) : Prop :=
  requests s !! pk = Some r ∧
  pending_from_to (Some other) acting r ∧
  ∀ (j : nat) (y : FriendRequest),
    requests s !! j = Some y → (j < pk)%nat → ¬ pending_from_to (Some other) acting y.

(** The stored status of row [pk], if the row exists. *)
Definition status_at (s : Store) (pk : nat) : option Status :=
  status <$> requests s !! pk.

(** How a stored row may differ after a call: not at all, or its status
    went from pending to accepted or rejected and nothing else moved. *)
Definition evolves (r r' : FriendRequest) : Prop :=
  r' = r ∨
  (status r = pending ∧ (r' = set_status r accepted ∨ r' = set_status r rejected)).

(** No stored request has the same user as sender and receiver. *)
Definition no_self_request (s : Store) : Prop :=
  ∀ r, r ∈ requests s → from_user r ≠ to_user r.

(** No user is a member of its own friends relation. *)
Definition no_self_friend (s : Store) : Prop :=
  ∀ u, ¬ is_friend s u u.

(** Every stored request and every friends row joins registered users. *)
Definition endpoints_registered (s : Store) : Prop :=
  (∀ r, r ∈ requests s →
        user_exists s (from_user r) = true ∧ user_exists s (to_user r) = true) ∧
  (∀ u v, is_friend s u v → user_exists s u = true ∧ user_exists s v = true).

(** Some stored request between [u] and [v], in either direction, is
    accepted. *)
Definition accepted_between (s : Store) (u v : Z) : Prop :=
  ∃ r, r ∈ requests s ∧ status r = accepted ∧
       ((from_user r = u ∧ to_user r = v) ∨ (from_user r = v ∧ to_user r = u)).

(** The friends relation holds exactly the pairs with an accepted
    request between them. *)
Definition friends_match_accepted (s : Store) : Prop :=
  ∀ u v, is_friend s u v ↔ accepted_between s u v.

(** [needle] is a substring of [hay]. *)
Definition substring_of (needle hay : string) : Prop :=
  ∃ pre post, hay = pre +:+ needle +:+ post.

(** ** Example stores and call sequences *)

(** A store with one pending request from user 1 to user 2. *)
Definition store_one_pending : Store :=
  mkStore [mkUser 1 "a@x.com" "A"; mkUser 2 "b@x.com" "B"]
          [mkFriendRequest 1 2 pending 0] ∅.

(** A store where user 1's request to user 2 is already accepted, user
    1's request to user 3 is pending and user 3's request to user 2 is
    rejected. *)
Definition store_settled : Store :=
  mkStore [mkUser 1 "a@x.com" "A"; mkUser 2 "b@x.com" "B"; mkUser 3 "c@x.com" "C"]
          [mkFriendRequest 1 2 accepted 0; mkFriendRequest 1 3 pending 1;
           mkFriendRequest 3 2 rejected 2]
          {[ (1, 2); (2, 1) ]}.

(** A store where user 1 has sent user 2 the same request twice. *)
Definition store_two_pending : Store :=
  mkStore [mkUser 1 "a@x.com" "A"; mkUser 2 "b@x.com" "B"]
          [mkFriendRequest 1 2 pending 0; mkFriendRequest 1 2 pending 1] ∅.

(** [store_one_pending] after user 2 has accepted user 1. *)
Definition store_one_accepted : Store :=
  snd (accept_post store_one_pending 2 (Some 1)).

(** A store where users 1 and 2 have each sent the other a request. *)
Definition store_crossed : Store :=
  mkStore [mkUser 1 "a@x.com" "A"; mkUser 2 "b@x.com" "B"]
          [mkFriendRequest 1 2 pending 0; mkFriendRequest 2 1 pending 1] ∅.

(** A store where user 2 is called Alice. *)
Definition store_alice : Store :=
  mkStore [mkUser 1 "bob@x.com" "Bob"; mkUser 2 "alice@x.com" "Alice"] [] ∅.

(** The calls of two registered users where the first sends the second
    the same request twice. *)
Definition ops_two_sends : list Op :=
  [Register (Some "a@x.com") (Some "A") (Some "pw");
   Register (Some "b@x.com") (Some "B") (Some "pw");
   Send 1 (mkSendData (Some 2) None None) 0;
   Send 1 (mkSendData (Some 2) None None) 1].

(** A user who registers, sends a request to itself and accepts it. *)
Definition ops_self_accept : list Op :=
  [Register (Some "a@x.com") (Some "A") (Some "pw");
   Send 1 (mkSendData (Some 1) None None) 0;
   Accept 1 (Some 1)].

(** Two users register, the first sends the second a request and the
    second accepts it. *)
Definition ops_send_accept : list Op :=
  [Register (Some "a@x.com") (Some "A") (Some "pw");
   Register (Some "b@x.com") (Some "B") (Some "pw");
   Send 1 (mkSendData (Some 2) None None) 0;
   Accept 2 (Some 1)].

(** ** Lookup lemmas *)

Section Lookup.
Variable s : Store.
Variables acting other : Z.

Lemma filter_first_Some pk r :
  filter_first (Some other) acting s = Some (pk, r) ↔ first_pending s other acting pk r.
Proof. unfold filter_first, first_pending. apply list_find_Some. Qed.

Lemma filter_first_None user_id :
  filter_first user_id acting s = None ↔
  ∀ r, r ∈ requests s → ¬ pending_from_to user_id acting r.
Proof.
  unfold filter_first. rewrite list_find_None, Forall_forall. reflexivity.
Qed.

Lemma first_pending_exists k r :
  requests s !! k = Some r → pending_from_to (Some other) acting r →
  ∃ pk r0, first_pending s other acting pk r0 ∧ (pk ≤ k)%nat.
Proof.
  intros Hk Hr.
  destruct (list_find_elem_of (pending_from_to (Some other) acting) (requests s) r)
    as [[pk r0] Hfind]; [by eapply list_elem_of_lookup_2 | done |].
  exists pk, r0. split; [by apply filter_first_Some |].
  apply list_find_Some in Hfind as (_ & _ & Hleast).
  destruct (decide (pk ≤ k)%nat) as [|Hn]; [done |].
  exfalso. apply (Hleast k r); [done | lia | done].
Qed.

Lemma first_pending_fun pk r pk' r' :
  first_pending s other acting pk r → first_pending s other acting pk' r' →
  pk = pk' ∧ r = r'.
Proof.
  intros H1%filter_first_Some H2%filter_first_Some.
  rewrite H1 in H2. by inversion H2.
Qed.

Lemma accept_post_first pk r :
  first_pending s other acting pk r →
  accept_post s acting (Some other) =
    (Ok (set_status r accepted),
     friends_add acting (from_user r) (save pk (set_status r accepted) s)).
Proof. intros H%filter_first_Some. unfold accept_post. by rewrite H. Qed.

Lemma reject_post_first pk r :
  first_pending s other acting pk r →
  reject_post s acting (Some other) =
    (Ok (set_status r rejected), save pk (set_status r rejected) s).
Proof. intros H%filter_first_Some. unfold reject_post. by rewrite H. Qed.

Lemma accept_post_none user_id :
  filter_first user_id acting s = None →
  accept_post s acting user_id = (Err InvalidFriendRequest, s).
Proof. intros H. unfold accept_post. by rewrite H. Qed.

Lemma reject_post_none user_id :
  filter_first user_id acting s = None →
  reject_post s acting user_id = (Err InvalidFriendRequest, s).
Proof. intros H. unfold reject_post. by rewrite H. Qed.
End Lookup.

Lemma first_pending_lt s other acting pk r :
  first_pending s other acting pk r → (pk < length (requests s))%nat.
Proof. intros (H & _). by eapply lookup_lt_Some. Qed.

(** ** Acceptance *)

(** C1.  In every store that holds, at some row [k], a pending request
    from [other] to [acting], accepting succeeds: the request the lookup
    selects (the first such row, which is row [k] itself when no earlier
    row is such a request) is stored with status accepted, nothing else
    in the request table changes, and afterwards each of the two users
    is a member of the other's friends relation and is listed among the
    other's friends. *)
Theorem accept_sets_accepted_and_befriends
    (s : Store) (acting other : Z) (k : nat) (r : FriendRequest) :
  requests s !! k = Some r →
  from_user r = other → to_user r = acting → status r = pending →
  ∃ (pk : nat) (r0 : FriendRequest) (s' : Store),
    first_pending s other acting pk r0 ∧
    (pk ≤ k)%nat ∧
    ((∀ j y, requests s !! j = Some y → (j < k)%nat →
        ¬ pending_from_to (Some other) acting y) → pk = k ∧ r0 = r) ∧
    accept_post s acting (Some other) = (Ok (set_status r0 accepted), s') ∧
    requests s' = <[pk := set_status r0 accepted]> (requests s) ∧
    status_at s' pk = Some accepted ∧
    users s' = users s ∧
    is_friend s' acting other ∧ is_friend s' other acting ∧
    (∀ u, u ∈ users s → id u = other → u ∈ friend_list s' acting) ∧
    (∀ u, u ∈ users s → id u = acting → u ∈ friend_list s' other).
Proof.
  intros Hk Hfrom Hto Hst.
  assert (Hr : pending_from_to (Some other) acting r) by (by rewrite <- Hfrom).
  destruct (first_pending_exists s acting other k r Hk Hr) as (pk & r0 & Hfirst & Hle).
  exists pk, r0. eexists. split; [done |]. split; [done |].
  split.
  { intros Hnone.
    assert (Hfirst' : first_pending s other acting k r) by done.
    by destruct (first_pending_fun _ _ _ _ _ _ _ Hfirst Hfirst'). }
  split; [by apply accept_post_first |].
  pose proof (first_pending_lt _ _ _ _ _ Hfirst) as Hlt.
  destruct Hfirst as (_ & (Hf0 & _ & _) & _). injection Hf0 as Hf0.
  unfold status_at, friend_list, is_friend; simpl. rewrite Hf0.
  assert (H1 : (acting, other) ∈ ({[(acting, other); (other, acting)]} ∪ friends s : gset (Z * Z)))
    by (rewrite !elem_of_union, !elem_of_singleton; auto).
  assert (H2 : (other, acting) ∈ ({[(acting, other); (other, acting)]} ∪ friends s : gset (Z * Z)))
    by (rewrite !elem_of_union, !elem_of_singleton; auto).
  split; [done |]. split; [by rewrite list_lookup_insert_eq |].
  split; [done |]. split; [done |]. split; [done |].
  split; intros u Hu Hid; apply list_elem_of_filter; by rewrite Hid.
Qed.

Lemma accept_sets_accepted_and_befriends_witness :
  ∃ (pk : nat) (r0 : FriendRequest) (s' : Store),
    first_pending store_one_pending 1 2 pk r0 ∧
    (pk ≤ 0)%nat ∧
    ((∀ j y, requests store_one_pending !! j = Some y → (j < 0)%nat →
        ¬ pending_from_to (Some 1) 2 y) → pk = 0%nat ∧ r0 = mkFriendRequest 1 2 pending 0) ∧
    accept_post store_one_pending 2 (Some 1) = (Ok (set_status r0 accepted), s') ∧
    requests s' = <[pk := set_status r0 accepted]> (requests store_one_pending) ∧
    status_at s' pk = Some accepted ∧
    users s' = users store_one_pending ∧
    is_friend s' 2 1 ∧ is_friend s' 1 2 ∧
    (∀ u, u ∈ users store_one_pending → id u = 1 → u ∈ friend_list s' 2) ∧
    (∀ u, u ∈ users store_one_pending → id u = 2 → u ∈ friend_list s' 1).
Proof.
  apply (accept_sets_accepted_and_befriends store_one_pending 2 1 0
           (mkFriendRequest 1 2 pending 0)); reflexivity.
Defined.

(** ** Calls that match no pending request *)

(** C3.  When no stored request is a pending request from [other] to
    [acting] (the row may be missing, already accepted or rejected, or
    addressed to someone else), accepting and rejecting both answer with
    the invalid-request error and return the store as it was: every
    request, every friends row and every user is untouched.  The same
    holds when the call carries no [user_id] at all. *)
Theorem accept_reject_without_pending_fail
    (s : Store) (acting other : Z) :
  (∀ r, r ∈ requests s →
        ¬ (from_user r = other ∧ to_user r = acting ∧ status r = pending)) →
  accept_post s acting (Some other) = (Err InvalidFriendRequest, s) ∧
  reject_post s acting (Some other) = (Err InvalidFriendRequest, s) ∧
  snd (step s (Accept acting (Some other))) = s ∧
  snd (step s (Reject acting (Some other))) = s ∧
  accept_post s acting None = (Err InvalidFriendRequest, s) ∧
  reject_post s acting None = (Err InvalidFriendRequest, s).
Proof.
  intros Hnone.
  assert (H1 : filter_first (Some other) acting s = None).
  { apply filter_first_None. intros r Hr (Hf & Ht & Hs).
    apply (Hnone r Hr). by injection Hf as ->. }
  assert (H2 : filter_first None acting s = None).
  { apply filter_first_None. by intros r _ (Hf & _). }
  pose proof (accept_post_none s acting _ H1) as Ha.
  pose proof (reject_post_none s acting _ H1) as Hr.
  repeat split; try done; try (by apply accept_post_none); try (by apply reject_post_none).
  - simpl. unfold authenticated. rewrite Ha. by destruct (user_exists s acting).
  - simpl. unfold authenticated. rewrite Hr. by destruct (user_exists s acting).
Qed.

Lemma accept_reject_without_pending_fail_witness :
  accept_post store_settled 2 (Some 1) = (Err InvalidFriendRequest, store_settled) ∧
  reject_post store_settled 2 (Some 1) = (Err InvalidFriendRequest, store_settled) ∧
  snd (step store_settled (Accept 2 (Some 1))) = store_settled ∧
  snd (step store_settled (Reject 2 (Some 1))) = store_settled ∧
  accept_post store_settled 2 None = (Err InvalidFriendRequest, store_settled) ∧
  reject_post store_settled 2 None = (Err InvalidFriendRequest, store_settled).
Proof.
  apply (accept_reject_without_pending_fail store_settled 2 1).
  intros r Hr (Hf & Ht & Hs). simpl in Hr.
  repeat (apply elem_of_cons in Hr as [-> | Hr]; [simpl in *; (discriminate || lia) |]).
  by apply elem_of_nil in Hr.
Defined.

(** ** Rejection *)

(** C6.  In every store that holds, at some row [k], a pending request
    from [other] to [acting], rejecting succeeds: the request the lookup
    selects (row [k] itself when no earlier row is such a request) is
    stored with status rejected, and the friends relation and the users
    are exactly as before.  In particular, when [a] sends a request to
    [b] and [b] then rejects, the answer carries status rejected (it is
    the request just sent when no older one was pending), the friends
    relation is the one from before the request, and so neither is in
    the other's friends unless they already were. *)
Theorem reject_sets_rejected_keeps_friends (s : Store) :
  (∀ (acting other : Z) (k : nat) (r : FriendRequest),
    requests s !! k = Some r →
    from_user r = other → to_user r = acting → status r = pending →
    ∃ (pk : nat) (r0 : FriendRequest) (s' : Store),
      first_pending s other acting pk r0 ∧
      (pk ≤ k)%nat ∧
      ((∀ j y, requests s !! j = Some y → (j < k)%nat →
          ¬ pending_from_to (Some other) acting y) → pk = k ∧ r0 = r) ∧
      reject_post s acting (Some other) = (Ok (set_status r0 rejected), s') ∧
      requests s' = <[pk := set_status r0 rejected]> (requests s) ∧
      status_at s' pk = Some rejected ∧
      users s' = users s ∧
      friends s' = friends s) ∧
  (∀ (a b : Z) (d : SendData) (now : nat),
    data_to_user d = Some b → user_exists s b = true →
    ∃ (sent rej : FriendRequest) (s1 s2 : Store),
      create_post s a d now = (Ok sent, s1) ∧
      reject_post s1 b (Some a) = (Ok rej, s2) ∧
      status rej = rejected ∧
      friends s2 = friends s ∧
      (¬ is_friend s a b → ¬ is_friend s2 a b) ∧
      (¬ is_friend s b a → ¬ is_friend s2 b a) ∧
      ((∀ y, y ∈ requests s → ¬ pending_from_to (Some a) b y) →
         rej = set_status sent rejected ∧
         requests s2 = requests s ++ [set_status sent rejected])).
Proof.
  split.
  - intros acting other k r Hk Hfrom Hto Hst.
    assert (Hr : pending_from_to (Some other) acting r) by (by rewrite <- Hfrom).
    destruct (first_pending_exists s acting other k r Hk Hr) as (pk & r0 & Hfirst & Hle).
    exists pk, r0. eexists. split; [done |]. split; [done |].
    split.
    { intros Hnone.
      assert (Hfirst' : first_pending s other acting k r) by done.
      by destruct (first_pending_fun _ _ _ _ _ _ _ Hfirst Hfirst'). }
    split; [by apply reject_post_first |].
    pose proof (first_pending_lt _ _ _ _ _ Hfirst) as Hlt.
    unfold status_at; simpl.
    split; [done |]. split; [by rewrite list_lookup_insert_eq |]. done.
  - intros a b d now Hd Hb.
    unfold create_post, validated_to_user. rewrite Hd, Hb.
    set (sent := mkFriendRequest a b default_status now).
    set (s1 := mkStore (users s) (requests s ++ [sent]) (friends s)).
    assert (Hs : pending_from_to (Some a) b sent) by done.
    assert (Hmid : requests s1 !! length (requests s) = Some sent)
      by (by apply list_lookup_middle).
    destruct (first_pending_exists s1 b a (length (requests s)) sent) as (pk & r0 & Hfirst & Hle);
      [done | done |].
    exists sent, (set_status r0 rejected), s1, (save pk (set_status r0 rejected) s1).
    split; [done |]. split; [by apply reject_post_first |].
    do 4 (split; [done |]).
    intros Hnone.
    assert (Hfirst' : first_pending s1 a b (length (requests s)) sent).
    { split; [done |]. split; [done |]. intros j y Hj Hlt.
      apply (Hnone y). apply (list_elem_of_lookup_2 _ j).
      simpl in Hj. by rewrite lookup_app_l in Hj. }
    destruct (first_pending_fun _ _ _ _ _ _ _ Hfirst Hfirst') as [-> ->].
    split; [done |]. simpl.
    rewrite insert_app_r_alt by lia. by rewrite Nat.sub_diag.
Qed.

Lemma reject_sets_rejected_keeps_friends_witness :
  (∃ (pk : nat) (r0 : FriendRequest) (s' : Store),
    first_pending store_one_pending 1 2 pk r0 ∧
    (pk ≤ 0)%nat ∧
    ((∀ j y, requests store_one_pending !! j = Some y → (j < 0)%nat →
        ¬ pending_from_to (Some 1) 2 y) → pk = 0%nat ∧ r0 = mkFriendRequest 1 2 pending 0) ∧
    reject_post store_one_pending 2 (Some 1) = (Ok (set_status r0 rejected), s') ∧
    requests s' = <[pk := set_status r0 rejected]> (requests store_one_pending) ∧
    status_at s' pk = Some rejected ∧
    users s' = users store_one_pending ∧
    friends s' = friends store_one_pending) ∧
  (∃ (sent rej : FriendRequest) (s1 s2 : Store),
      create_post store_one_pending 2 (mkSendData (Some 1) None None) 5 = (Ok sent, s1) ∧
      reject_post s1 1 (Some 2) = (Ok rej, s2) ∧
      status rej = rejected ∧
      friends s2 = friends store_one_pending ∧
      (¬ is_friend store_one_pending 2 1 → ¬ is_friend s2 2 1) ∧
      (¬ is_friend store_one_pending 1 2 → ¬ is_friend s2 1 2) ∧
      ((∀ y, y ∈ requests store_one_pending → ¬ pending_from_to (Some 2) 1 y) →
         rej = set_status sent rejected ∧
         requests s2 = requests store_one_pending ++ [set_status sent rejected])).
Proof.
  destruct (reject_sets_rejected_keeps_friends store_one_pending) as [H1 H2].
  split.
  - apply (H1 2 1 0%nat (mkFriendRequest 1 2 pending 0)); reflexivity.
  - apply (H2 2 1 (mkSendData (Some 1) None None) 5%nat); reflexivity.
Defined.

(** ** Several pending requests from one sender *)

(** C8.  When two different rows [i] and [j] both hold a pending request
    from [other] to [acting], accepting and rejecting each change
    exactly one row: the first such row in key order, which was pending,
    is stored with status accepted (respectively rejected) and with its
    sender, receiver and creation time as before; every other row is as
    before, and so another request from that sender is still pending
    afterwards. *)
Theorem duplicate_pending_one_transition
    (s : Store) (acting other : Z) (i j : nat) (ri rj : FriendRequest) :
  i ≠ j →
  requests s !! i = Some ri → pending_from_to (Some other) acting ri →
  requests s !! j = Some rj → pending_from_to (Some other) acting rj →
  ∃ (pk : nat) (r0 : FriendRequest),
    first_pending s other acting pk r0 ∧
    let sa := snd (accept_post s acting (Some other)) in
    let sr := snd (reject_post s acting (Some other)) in
    requests sa !! pk = Some (set_status r0 accepted) ∧
    requests sr !! pk = Some (set_status r0 rejected) ∧
    requests sa !! pk = Some (mkFriendRequest other acting accepted (created_at r0)) ∧
    requests sr !! pk = Some (mkFriendRequest other acting rejected (created_at r0)) ∧
    status_at s pk = Some pending ∧
    status_at sa pk = Some accepted ∧
    status_at sr pk = Some rejected ∧
    (∀ k, k ≠ pk → requests sa !! k = requests s !! k) ∧
    (∀ k, k ≠ pk → requests sr !! k = requests s !! k) ∧
    ∃ (k : nat) (rk : FriendRequest),
      k ≠ pk ∧ pending_from_to (Some other) acting rk ∧ status rk = pending ∧
      requests sa !! k = Some rk ∧ requests sr !! k = Some rk.
Proof.
  intros Hij Hi Hri Hj Hrj.
  destruct (first_pending_exists s acting other i ri Hi Hri) as (pk & r0 & Hfirst & _).
  exists pk, r0. split; [done |].
  rewrite (accept_post_first _ _ _ _ _ Hfirst), (reject_post_first _ _ _ _ _ Hfirst).
  pose proof (first_pending_lt _ _ _ _ _ Hfirst) as Hlt.
  destruct Hfirst as (Hpk & (Hfrom & Hto & Hst) & _). injection Hfrom as Hfrom.
  unfold status_at. simpl.
  rewrite !list_lookup_insert_eq by done. rewrite Hpk. simpl.
  split; [done |]. split; [done |].
  split; [by rewrite <- Hfrom, <- Hto |].
  split; [by rewrite <- Hfrom, <- Hto |].
  split; [by rewrite Hst |]. split; [done |]. split; [done |].
  split; [by intros k Hk; apply list_lookup_insert_ne |].
  split; [by intros k Hk; apply list_lookup_insert_ne |].
  destruct (decide (i = pk)) as [-> | Hne].
  - exists j, rj. rewrite !list_lookup_insert_ne by done.
    by destruct Hrj as (? & ? & ?).
  - exists i, ri. rewrite !list_lookup_insert_ne by done.
    by destruct Hri as (? & ? & ?).
Qed.

Lemma duplicate_pending_one_transition_witness :
  ∃ (pk : nat) (r0 : FriendRequest),
    first_pending store_two_pending 1 2 pk r0 ∧
    let sa := snd (accept_post store_two_pending 2 (Some 1)) in
    let sr := snd (reject_post store_two_pending 2 (Some 1)) in
    requests sa !! pk = Some (set_status r0 accepted) ∧
    requests sr !! pk = Some (set_status r0 rejected) ∧
    requests sa !! pk = Some (mkFriendRequest 1 2 accepted (created_at r0)) ∧
    requests sr !! pk = Some (mkFriendRequest 1 2 rejected (created_at r0)) ∧
    status_at store_two_pending pk = Some pending ∧
    status_at sa pk = Some accepted ∧
    status_at sr pk = Some rejected ∧
    (∀ k, k ≠ pk → requests sa !! k = requests store_two_pending !! k) ∧
    (∀ k, k ≠ pk → requests sr !! k = requests store_two_pending !! k) ∧
    ∃ (k : nat) (rk : FriendRequest),
      k ≠ pk ∧ pending_from_to (Some 1) 2 rk ∧ status rk = pending ∧
      requests sa !! k = Some rk ∧ requests sr !! k = Some rk.
Proof.
  apply (duplicate_pending_one_transition store_two_pending 2 1 0 1
           (mkFriendRequest 1 2 pending 0) (mkFriendRequest 1 2 pending 1));
    (lia || done).
Defined.

(** ** Sending *)

(** A body naming a registered [to_user] always creates a request. *)
Lemma create_post_succeeds (s : Store) (acting k : Z) (d : SendData) (now : nat) :
  data_to_user d = Some k → user_exists s k = true →
  create_post s acting d now =
    (Ok (mkFriendRequest acting k pending now),
     mkStore (users s) (requests s ++ [mkFriendRequest acting k pending now]) (friends s)).
Proof. intros Hd Hk. unfold create_post, validated_to_user. by rewrite Hd, Hk. Qed.

(** C9.  A request created by a send has the acting user as sender and
    status pending, and is appended to the table; the answer and the new
    store depend on the client's body only through [to_user], so a
    [from_user] or [status] supplied by the client changes nothing. *)
Theorem send_sets_sender_and_pending
    (s : Store) (acting : Z) (d : SendData) (now : nat)
    (r : FriendRequest) (s' : Store) :
  create_post s acting d now = (Ok r, s') →
  from_user r = acting ∧ status r = pending ∧
  data_to_user d = Some (to_user r) ∧ created_at r = now ∧
  requests s' = requests s ++ [r] ∧
  users s' = users s ∧ friends s' = friends s ∧
  ∀ (supplied_from : option Z) (supplied_status : option Status),
    create_post s acting (mkSendData (data_to_user d) supplied_from supplied_status) now
      = (Ok r, s').
Proof.
  unfold create_post, validated_to_user. intros H.
  destruct (data_to_user d) as [k |] eqn:Hd; [| discriminate].
  destruct (user_exists s k) eqn:Hk; [| discriminate].
  injection H as <- <-. simpl. rewrite Hk. done.
Qed.

Lemma send_sets_sender_and_pending_witness :
  let r := mkFriendRequest 2 1 pending 7 in
  let s' := mkStore (users store_one_pending)
                    (requests store_one_pending ++ [r]) (friends store_one_pending) in
  from_user r = 2 ∧ status r = pending ∧
  data_to_user (mkSendData (Some 1) (Some 3) (Some accepted)) = Some (to_user r) ∧
  created_at r = 7%nat ∧
  requests s' = requests store_one_pending ++ [r] ∧
  users s' = users store_one_pending ∧ friends s' = friends store_one_pending ∧
  ∀ (supplied_from : option Z) (supplied_status : option Status),
    create_post store_one_pending 2 (mkSendData (Some 1) supplied_from supplied_status) 7
      = (Ok r, s').
Proof.
  apply (send_sets_sender_and_pending store_one_pending 2
           (mkSendData (Some 1) (Some 3) (Some accepted)) 7%nat).
  reflexivity.
Defined.

(** ** Status transitions *)

Lemma evolves_refl r : evolves r r.
Proof. by left. Qed.

Lemma evolves_settled r r' : evolves r r' → status r ≠ pending → r' = r.
Proof. intros [-> | [Hp _]] Hn; [done | by destruct Hn]. Qed.

Section Transitions.
Variable s : Store.

Lemma save_first_evolves user_id acting pk0 r0 st pk r :
  filter_first user_id acting s = Some (pk0, r0) →
  st = accepted ∨ st = rejected →
  requests s !! pk = Some r →
  ∃ r', <[pk0 := set_status r0 st]> (requests s) !! pk = Some r' ∧ evolves r r'.
Proof.
  intros (H0 & (_ & _ & Hp) & _)%list_find_Some Hst Hpk.
  destruct (decide (pk = pk0)) as [-> | Hne].
  - assert (r0 = r) as -> by congruence.
    exists (set_status r st). split.
    + apply list_lookup_insert_eq. by eapply lookup_lt_Some.
    + right. split; [done |]. by destruct Hst as [-> | ->]; [left | right].
  - exists r. split; [| apply evolves_refl].
    by rewrite list_lookup_insert_ne.
Qed.

Lemma accept_post_evolves acting user_id pk r :
  requests s !! pk = Some r →
  ∃ r', requests (snd (accept_post s acting user_id)) !! pk = Some r' ∧ evolves r r'.
Proof.
  intros Hpk. unfold accept_post.
  destruct (filter_first user_id acting s) as [[pk0 r0] |] eqn:Hf; simpl.
  - eapply save_first_evolves; eauto.
  - exists r. eauto using evolves_refl.
Qed.

Lemma reject_post_evolves acting user_id pk r :
  requests s !! pk = Some r →
  ∃ r', requests (snd (reject_post s acting user_id)) !! pk = Some r' ∧ evolves r r'.
Proof.
  intros Hpk. unfold reject_post.
  destruct (filter_first user_id acting s) as [[pk0 r0] |] eqn:Hf; simpl.
  - eapply save_first_evolves; eauto.
  - exists r. eauto using evolves_refl.
Qed.

Lemma create_post_keeps acting d now pk r :
  requests s !! pk = Some r →
  requests (snd (create_post s acting d now)) !! pk = Some r.
Proof.
  intros Hpk. unfold create_post.
  destruct (validated_to_user s d); simpl; [| done].
  by apply lookup_app_l_Some.
Qed.

Lemma register_post_requests em nm pw :
  requests (snd (register_post s em nm pw)) = requests s.
Proof.
  unfold register_post. destruct em, pw; try done.
  by destruct (existsb _ _).
Qed.

Lemma step_evolves o pk r :
  requests s !! pk = Some r →
  ∃ r', requests (snd (step s o)) !! pk = Some r' ∧ evolves r r'.
Proof.
  intros Hpk. destruct o as [em nm pw | acting d now | acting uid | acting uid]; simpl.
  - pose proof (register_post_requests em nm pw) as Hreq.
    destruct (register_post s em nm pw) as [res s']. simpl in *.
    rewrite Hreq. eauto using evolves_refl.
  - unfold authenticated. destruct (user_exists s acting); simpl.
    + exists r. split; [by apply create_post_keeps | apply evolves_refl].
    + eauto using evolves_refl.
  - unfold authenticated. destruct (user_exists s acting); simpl.
    + by apply accept_post_evolves.
    + eauto using evolves_refl.
  - unfold authenticated. destruct (user_exists s acting); simpl.
    + by apply reject_post_evolves.
    + eauto using evolves_refl.
Qed.
End Transitions.

Lemma run_cons s o ops : run s (o :: ops) = run (snd (step s o)) ops.
Proof. reflexivity. Qed.

Lemma run_app s ops1 ops2 : run s (ops1 ++ ops2) = run (run s ops1) ops2.
Proof. unfold run. apply foldl_app. Qed.

(** A row that is accepted or rejected is the same row after any
    sequence of calls. *)
Lemma run_settled ops : ∀ s pk r,
  requests s !! pk = Some r → status r ≠ pending →
  requests (run s ops) !! pk = Some r.
Proof.
  induction ops as [| o ops IH]; intros s pk r Hpk Hst; [done |].
  rewrite run_cons. apply IH; [| done].
  destruct (step_evolves s o pk r Hpk) as (r' & Hr' & Hev).
  by rewrite (evolves_settled _ _ Hev Hst) in Hr'.
Qed.

(** After a successful accept the selected row is the only one that
    changed, and it now reads accepted. *)
Lemma accept_post_Ok_inv s acting other r s' :
  accept_post s acting (Some other) = (Ok r, s') →
  ∃ pk r0, first_pending s other acting pk r0 ∧ r = set_status r0 accepted ∧
           s' = friends_add acting (from_user r) (save pk r s).
Proof.
  unfold accept_post. intros H.
  destruct (filter_first (Some other) acting s) as [[pk r0] |] eqn:Hf; [| discriminate].
  injection H as <- <-. exists pk, r0. split; [by apply filter_first_Some | done].
Qed.

(** C4 (amended).  Every call leaves each stored request as it is or
    moves its status from pending to accepted or rejected; a request
    that is accepted or rejected is never changed again by any sequence
    of calls.  In particular, after a successful accept the accepted
    request stays accepted for ever, and a second accept (or a reject)
    of the same pair fails with the invalid-request error and changes
    nothing, provided the accepted request was the only pending one from
    that sender to the acting user. *)
Theorem settled_requests_stay_settled (s : Store) :
  (∀ (o : Op) (pk : nat) (r : FriendRequest),
     requests s !! pk = Some r →
     ∃ r', requests (snd (step s o)) !! pk = Some r' ∧ evolves r r') ∧
  (∀ (acting : Z) (user_id : option Z) (pk : nat) (r : FriendRequest),
     requests s !! pk = Some r →
     (∃ r', requests (snd (accept_post s acting user_id)) !! pk = Some r' ∧ evolves r r') ∧
     (∃ r', requests (snd (reject_post s acting user_id)) !! pk = Some r' ∧ evolves r r')) ∧
  (∀ (ops : list Op) (pk : nat) (r : FriendRequest),
     requests s !! pk = Some r → status r ≠ pending →
     requests (run s ops) !! pk = Some r) ∧
  (∀ (acting other : Z) (r : FriendRequest) (s' : Store),
     accept_post s acting (Some other) = (Ok r, s') →
     ∃ (pk : nat) (r0 : FriendRequest),
       first_pending s other acting pk r0 ∧
       r = set_status r0 accepted ∧
       (∀ ops, requests (run s' ops) !! pk = Some r) ∧
       ((∀ j y, requests s !! j = Some y →
                pending_from_to (Some other) acting y → j = pk) →
        accept_post s' acting (Some other) = (Err InvalidFriendRequest, s') ∧
        reject_post s' acting (Some other) = (Err InvalidFriendRequest, s'))).
Proof.
  split; [apply step_evolves |].
  split; [by split; [apply accept_post_evolves | apply reject_post_evolves] |].
  split; [intros ops; apply run_settled |].
  intros acting other r s' (pk & r0 & Hfirst & -> & ->)%accept_post_Ok_inv.
  exists pk, r0. split; [done |]. split; [done |].
  pose proof (first_pending_lt _ _ _ _ _ Hfirst) as Hlt.
  split.
  - intros ops. apply run_settled; [| done].
    simpl. by apply list_lookup_insert_eq.
  - intros Honly.
    set (s' := friends_add _ _ _).
    assert (Hnone : filter_first (Some other) acting s' = None).
    { apply filter_first_None. intros y Hy Hp.
      apply list_elem_of_lookup in Hy as [j Hj]. simpl in Hj.
      destruct (decide (j = pk)) as [-> | Hne].
      - rewrite list_lookup_insert_eq in Hj by done.
        injection Hj as <-. by destruct Hp as (_ & _ & ?).
      - rewrite list_lookup_insert_ne in Hj by done.
        apply Hne. by apply (Honly j y). }
    split; [by apply accept_post_none | by apply reject_post_none].
Qed.

Lemma settled_requests_stay_settled_witness :
  ∃ (pk : nat) (r0 : FriendRequest),
    first_pending store_one_pending 1 2 pk r0 ∧
    mkFriendRequest 1 2 accepted 0 = set_status r0 accepted ∧
    (∀ ops, requests (run store_one_accepted ops) !! pk
              = Some (mkFriendRequest 1 2 accepted 0)) ∧
    ((∀ j y, requests store_one_pending !! j = Some y →
             pending_from_to (Some 1) 2 y → j = pk) →
     accept_post store_one_accepted 2 (Some 1)
       = (Err InvalidFriendRequest, store_one_accepted) ∧
     reject_post store_one_accepted 2 (Some 1)
       = (Err InvalidFriendRequest, store_one_accepted)).
Proof.
  destruct (settled_requests_stay_settled store_one_pending) as (_ & _ & _ & H).
  exact (H 2 1 (mkFriendRequest 1 2 accepted 0) store_one_accepted eq_refl).
Defined.

(** C4 as stated fails: in the store two registrations and two sends
    build, user 2's accept of user 1 succeeds, and so does the second
    accept of the same pair, which accepts the other pending request
    instead of failing. *)
Lemma second_accept_succeeds_on_duplicate :
  let s0 := run empty_store ops_two_sends in
  let s1 := snd (accept_post s0 2 (Some 1)) in
  let s2 := snd (accept_post s1 2 (Some 1)) in
  requests s0 = [mkFriendRequest 1 2 pending 0; mkFriendRequest 1 2 pending 1] ∧
  fst (accept_post s0 2 (Some 1)) = Ok (mkFriendRequest 1 2 accepted 0) ∧
  fst (accept_post s1 2 (Some 1)) = Ok (mkFriendRequest 1 2 accepted 1) ∧
  accept_post s1 2 (Some 1) ≠ (Err InvalidFriendRequest, s1) ∧
  requests s1 = [mkFriendRequest 1 2 accepted 0; mkFriendRequest 1 2 pending 1] ∧
  requests s2 = [mkFriendRequest 1 2 accepted 0; mkFriendRequest 1 2 accepted 1].
Proof.
  cbv zeta. repeat split; by vm_compute.
Qed.

(** ** Invariants of the reachable stores *)

Section Preservation.
Variable s : Store.

(** Saving a row with a new status keeps senders and receivers. *)
Lemma save_endpoints pk0 r0 st y :
  requests s !! pk0 = Some r0 →
  y ∈ <[pk0 := set_status r0 st]> (requests s) →
  ∃ r, r ∈ requests s ∧ from_user y = from_user r ∧ to_user y = to_user r.
Proof.
  intros H0 [j Hj]%list_elem_of_lookup.
  apply list_lookup_insert_Some in Hj as [(-> & <- & _) | (_ & Hj)].
  - exists r0. split; [by eapply list_elem_of_lookup_2 | done].
  - exists y. split; [by eapply list_elem_of_lookup_2 | done].
Qed.

Lemma accept_post_no_self_request acting user_id :
  no_self_request s → no_self_request (snd (accept_post s acting user_id)).
Proof.
  intros Hinv. unfold accept_post.
  destruct (filter_first user_id acting s) as [[pk0 r0] |] eqn:Hf; [| done].
  apply list_find_Some in Hf as (H0 & _ & _). intros y Hy. simpl in Hy.
  destruct (save_endpoints _ _ _ _ H0 Hy) as (r & Hr & -> & ->). by apply Hinv.
Qed.

Lemma reject_post_no_self_request acting user_id :
  no_self_request s → no_self_request (snd (reject_post s acting user_id)).
Proof.
  intros Hinv. unfold reject_post.
  destruct (filter_first user_id acting s) as [[pk0 r0] |] eqn:Hf; [| done].
  apply list_find_Some in Hf as (H0 & _ & _). intros y Hy. simpl in Hy.
  destruct (save_endpoints _ _ _ _ H0 Hy) as (r & Hr & -> & ->). by apply Hinv.
Qed.

Lemma create_post_no_self_request acting d now :
  data_to_user d ≠ Some acting →
  no_self_request s → no_self_request (snd (create_post s acting d now)).
Proof.
  intros Hd Hinv. unfold create_post, validated_to_user.
  destruct (data_to_user d) as [k |]; [| done].
  destruct (user_exists s k); [| done].
  intros y [Hy | ->%list_elem_of_singleton]%elem_of_app; [by apply Hinv |].
  simpl. congruence.
Qed.

Lemma accept_post_no_self_friend acting user_id :
  no_self_request s → no_self_friend s →
  no_self_friend (snd (accept_post s acting user_id)).
Proof.
  intros Hreq Hinv. unfold accept_post.
  destruct (filter_first user_id acting s) as [[pk0 r0] |] eqn:Hf; [| done].
  apply list_find_Some in Hf as (H0 & (_ & Hto & _) & _).
  assert (Hne : from_user r0 ≠ acting).
  { rewrite <- Hto. apply Hreq. by eapply list_elem_of_lookup_2. }
  intros u. specialize (Hinv u). unfold is_friend in *. simpl.
  rewrite !elem_of_union, !elem_of_singleton.
  intros [[[= -> Heq] | [= Heq ->]] | Hin]; [congruence | congruence | done].
Qed.

Lemma step_friends_other o :
  (∀ acting user_id, o ≠ Accept acting user_id) →
  friends (snd (step s o)) = friends s.
Proof.
  intros Hne. destruct o as [em nm pw | acting d now | acting uid | acting uid]; simpl.
  - unfold register_post. destruct em, pw; try done. by destruct (existsb _ _).
  - unfold authenticated, create_post.
    destruct (user_exists s acting); [| done].
    by destruct (validated_to_user s d).
  - by destruct (Hne acting uid).
  - unfold authenticated, reject_post.
    destruct (user_exists s acting); [| done].
    by destruct (filter_first uid acting s) as [[??] |].
Qed.

Lemma step_no_self o :
  self_send o = false →
  no_self_request s ∧ no_self_friend s →
  no_self_request (snd (step s o)) ∧ no_self_friend (snd (step s o)).
Proof.
  intros Hself [Hreq Hfr].
  destruct o as [em nm pw | acting d now | acting uid | acting uid].
  - split.
    + unfold no_self_request. simpl.
      pose proof (register_post_requests s em nm pw) as Heq.
      destruct (register_post s em nm pw); simpl in *. by rewrite Heq.
    + unfold no_self_friend, is_friend. by rewrite step_friends_other.
  - split.
    + simpl. unfold authenticated. destruct (user_exists s acting); [| done].
      apply create_post_no_self_request; [| done].
      simpl in Hself. by apply bool_decide_eq_false in Hself.
    + unfold no_self_friend, is_friend. by rewrite step_friends_other.
  - simpl. unfold authenticated. destruct (user_exists s acting); [| done].
    split; [by apply accept_post_no_self_request | by apply accept_post_no_self_friend].
  - split.
    + simpl. unfold authenticated. destruct (user_exists s acting); [| done].
      by apply reject_post_no_self_request.
    + unfold no_self_friend, is_friend. by rewrite step_friends_other.
Qed.
End Preservation.

Lemma run_no_self ops : ∀ s,
  Forall (λ o, self_send o = false) ops →
  no_self_request s ∧ no_self_friend s →
  no_self_request (run s ops) ∧ no_self_friend (run s ops).
Proof.
  induction ops as [| o ops IH]; intros s Hops Hinv; [done |].
  apply Forall_cons in Hops as [Ho Hops].
  rewrite run_cons. apply IH; [done |]. by apply step_no_self.
Qed.

Lemma empty_store_no_self : no_self_request empty_store ∧ no_self_friend empty_store.
Proof.
  split.
  - intros r Hr. by apply elem_of_nil in Hr.
  - intros u Hu. unfold is_friend in Hu. simpl in Hu. set_solver.
Qed.

(** C2 (amended).  In every store built from the empty one by a sequence
    of register, send, accept and reject calls none of which is a send
    addressed to its own sender, no user is a member of its own friends
    relation. *)
Theorem never_own_friend_without_self_send (ops : list Op) (u : Z) :
  Forall (λ o, self_send o = false) ops →
  ¬ is_friend (run empty_store ops) u u.
Proof.
  intros Hops.
  by destruct (run_no_self ops empty_store Hops empty_store_no_self) as [_ H].
Qed.

Lemma never_own_friend_without_self_send_witness :
  ¬ is_friend (run empty_store ops_send_accept) 1 1.
Proof.
  apply (never_own_friend_without_self_send ops_send_accept 1).
  repeat constructor.
Defined.

(** C2 as stated fails: after user 1 registers, sends itself a request
    and accepts it, the store is reachable and user 1 is a member of its
    own friends relation. *)
Lemma self_accept_makes_own_friend :
  reachable (run empty_store ops_self_accept) ∧
  is_friend (run empty_store ops_self_accept) 1 1.
Proof.
  split; [by exists ops_self_accept |].
  unfold is_friend. vm_compute friends. set_solver.
Qed.

(** C5 (amended).  In every store built from the empty one by a sequence
    of calls none of which is a send addressed to its own sender, every
    stored request has a sender different from its receiver. *)
Theorem requests_distinct_without_self_send (ops : list Op) (r : FriendRequest) :
  Forall (λ o, self_send o = false) ops →
  r ∈ requests (run empty_store ops) →
  from_user r ≠ to_user r.
Proof.
  intros Hops Hr.
  destruct (run_no_self ops empty_store Hops empty_store_no_self) as [H _].
  by apply H.
Qed.

Lemma requests_distinct_without_self_send_witness :
  from_user (mkFriendRequest 1 2 accepted 0) ≠ to_user (mkFriendRequest 1 2 accepted 0).
Proof.
  apply (requests_distinct_without_self_send ops_send_accept).
  - repeat constructor.
  - vm_compute. apply list_elem_of_here.
Defined.

(** C5 as stated fails: after user 1 registers and sends a request
    naming itself as receiver, the reachable store holds a request whose
    sender and receiver are both user 1. *)
Lemma self_send_is_stored :
  reachable (run empty_store (take 2 ops_self_accept)) ∧
  requests (run empty_store (take 2 ops_self_accept)) = [mkFriendRequest 1 1 pending 0] ∧
  from_user (mkFriendRequest 1 1 pending 0) = to_user (mkFriendRequest 1 1 pending 0).
Proof.
  split; [by eexists |]. split; [by vm_compute | done].
Qed.

(** ** Search results *)

Lemma prefix_spec needle : ∀ hay,
  String.prefix needle hay = true ↔ ∃ post, hay = needle +:+ post.
Proof.
  induction needle as [| c needle IH]; intros hay.
  - split; [intros _; by exists hay | intros _; by destruct hay].
  - destruct hay as [| c' hay]; [by split; [| intros [post ?]] |].
    change (String.prefix (String c needle) (String c' hay))
      with (if Ascii.ascii_dec c c' then String.prefix needle hay else false).
    destruct (Ascii.ascii_dec c c') as [-> | Hne].
    + rewrite IH. split; intros [post Hpost]; exists post.
      * by rewrite Hpost.
      * by injection Hpost.
    + split; [done |]. intros [post Hpost]. injection Hpost as Hc _. by destruct Hne.
Qed.

Lemma contains_spec needle : ∀ hay,
  contains hay needle = true ↔ substring_of needle hay.
Proof.
  induction hay as [| c hay IH].
  - change (contains "" needle) with (String.prefix needle "" || false).
    rewrite orb_false_r, prefix_spec. split.
    + intros [post Hpost]. by exists ""%string, post.
    + intros ([| c pre] & post & Hpre); [by exists post | discriminate].
  - change (contains (String c hay) needle)
      with (String.prefix needle (String c hay) || contains hay needle).
    rewrite orb_true_iff, prefix_spec, IH. split.
    + intros [[post Hpost] | (pre & post & Hpre)].
      * by exists ""%string, post.
      * exists (String c pre), post. by rewrite Hpre.
    + intros ([| c' pre] & post & Hpre).
      * left. by exists post.
      * right. exists pre, post. by injection Hpre.
Qed.

Lemma contains_empty hay : contains hay "" = true.
Proof. apply contains_spec. by exists ""%string, hay. Qed.

Lemma iexact_spec a b : iexact a b = true ↔ lower a = lower b.
Proof. unfold iexact. apply String.eqb_eq. Qed.

Lemma icontains_spec field q :
  icontains field q = true ↔ substring_of (lower q) (lower field).
Proof. unfold icontains. apply contains_spec. Qed.

(** C7 (amended).  The search returns exactly the registered users,
    other than the requesting user, whose email equals the query up to
    letter case or whose name contains the query as a substring up to
    letter case, in the order of the user table; the requesting user is
    never in the result, whatever the query matches. *)
Theorem search_returns_case_blind_matches (s : Store) (user : Z) (q : string) :
  (∀ u, u ∈ search s user q ↔
        u ∈ users s ∧ id u ≠ user ∧
        (lower (email u) = lower q ∨ substring_of (lower q) (lower (name u)))) ∧
  search s user q `sublist_of` users s ∧
  (∀ u, u ∈ search s user q → id u ≠ user).
Proof.
  assert (Hiff : ∀ u, u ∈ search s user q ↔
        u ∈ users s ∧ id u ≠ user ∧
        (lower (email u) = lower q ∨ substring_of (lower q) (lower (name u)))).
  { intros u. unfold search. rewrite !list_elem_of_filter.
    rewrite <- iexact_spec, <- icontains_spec, Is_true_true, orb_true_iff. tauto. }
  split; [done |]. split.
  - unfold search. etrans; apply sublist_filter.
  - intros u Hu. by apply Hiff in Hu as (_ & ? & _).
Qed.

(** C7 as stated fails: for the query ALI user 1's search returns Alice,
    whose email is not the query and whose name does not contain the
    upper-case query as a substring. *)
Lemma search_name_match_ignores_case :
  mkUser 2 "alice@x.com" "Alice" ∈ search store_alice 1 "ALI" ∧
  lower "alice@x.com" ≠ lower "ALI" ∧
  ¬ substring_of "ALI" "Alice".
Proof.
  split; [vm_compute; apply list_elem_of_here |].
  split; [by vm_compute |].
  rewrite <- contains_spec. by vm_compute.
Qed.

(** C10.  For the empty query the search returns every registered user
    except the requesting one, in table order, and the result is not
    empty as soon as some other user is registered. *)
Theorem search_empty_query_returns_all_others (s : Store) (user : Z) :
  search s user "" = filter (λ u, id u ≠ user) (users s) ∧
  (∀ u, u ∈ search s user "" ↔ u ∈ users s ∧ id u ≠ user) ∧
  ((∃ u, u ∈ users s ∧ id u ≠ user) → search s user "" ≠ []).
Proof.
  assert (Heq : search s user "" = filter (λ u, id u ≠ user) (users s)).
  { unfold search. f_equal. induction (users s) as [| u l IH]; [done |].
    rewrite filter_cons_True; [by rewrite IH |].
    unfold icontains. simpl. rewrite contains_empty. by rewrite orb_true_r. }
  split; [done |]. rewrite Heq.
  split; [intros u; by rewrite list_elem_of_filter, (comm and) |].
  intros (u & Hu & Hne) Hnil.
  assert (Hin : u ∈ filter (λ u, id u ≠ user) (users s)) by (by apply list_elem_of_filter).
  rewrite Hnil in Hin. by apply elem_of_nil in Hin.
Qed.

Lemma search_empty_query_returns_all_others_witness :
  search store_alice 1 "" = [mkUser 2 "alice@x.com" "Alice"] ∧
  search store_alice 1 "" ≠ [].
Proof.
  destruct (search_empty_query_returns_all_others store_alice 1) as (Heq & _ & Hne).
  split; [by rewrite Heq |].
  apply Hne. exists (mkUser 2 "alice@x.com" "Alice").
  split; [apply list_elem_of_further, list_elem_of_here | by simpl].
Defined.

(** ** The scenarios of the specification *)

(** Two users register, the first sends the second a request, the second
    accepts: the request reads accepted, nothing is pending any more,
    each lists the other as a friend, and a second accept is refused and
    leaves the store as it is. *)
Example scenario_send_accept :
  let s := run empty_store ops_send_accept in
  requests s = [mkFriendRequest 1 2 accepted 0] ∧
  pending_list s 2 = [] ∧
  friend_list s 2 = [mkUser 1 "a@x.com" "A"] ∧
  friend_list s 1 = [mkUser 2 "b@x.com" "B"] ∧
  step s (Accept 2 (Some 1)) = (RRequest (Err InvalidFriendRequest), s).
Proof. cbv zeta. repeat split; by vm_compute. Qed.

(** Two users register, the first sends the second a request, the second
    rejects: the request reads rejected and neither lists the other. *)
Example scenario_send_reject :
  let s := run empty_store (take 3 ops_send_accept ++ [Reject 2 (Some 1)]) in
  requests s = [mkFriendRequest 1 2 rejected 0] ∧
  friend_list s 2 = [] ∧
  friend_list s 1 = [].
Proof. cbv zeta. repeat split; by vm_compute. Qed.

(** ** What a call can and cannot touch *)

(** Membership in the friends relation of a concrete store, by
    evaluation. *)
Ltac in_friends :=
  unfold is_friend; apply (bool_decide_unpack _); by vm_compute.

(** X1.  Accepting or rejecting changes no row other than a pending
    request from [user_id] to the acting user: a row addressed to
    someone else, sent by someone else, or already accepted or rejected
    is the same row afterwards. *)
Theorem decision_leaves_other_rows
    (s : Store) (acting : Z) (user_id : option Z) (pk : nat) (r : FriendRequest) :
  requests s !! pk = Some r →
  to_user r ≠ acting ∨ Some (from_user r) ≠ user_id ∨ status r ≠ pending →
  requests (snd (accept_post s acting user_id)) !! pk = Some r ∧
  requests (snd (reject_post s acting user_id)) !! pk = Some r.
Proof.
  intros Hpk Hno.
  assert (Hnp : ¬ pending_from_to user_id acting r).
  { intros (? & ? & ?). destruct Hno as [? | [? | ?]]; done. }
  unfold accept_post, reject_post.
  destruct (filter_first user_id acting s) as [[pk0 r0] |] eqn:Hf; simpl; [| done].
  apply list_find_Some in Hf as (H0 & Hp0 & _).
  assert (Hne : pk0 ≠ pk) by (intros ->; congruence).
  by rewrite !list_lookup_insert_ne.
Qed.

Lemma decision_leaves_other_rows_witness :
  requests (snd (accept_post store_settled 3 (Some 1))) !! 0%nat
    = Some (mkFriendRequest 1 2 accepted 0) ∧
  requests (snd (reject_post store_settled 3 (Some 1))) !! 0%nat
    = Some (mkFriendRequest 1 2 accepted 0).
Proof.
  apply (decision_leaves_other_rows store_settled 3 (Some 1) 0
           (mkFriendRequest 1 2 accepted 0)); [reflexivity |].
  left. simpl. lia.
Defined.

Lemma accept_post_keeps_friends (s : Store) (acting : Z) (user_id : option Z) (u v : Z) :
  is_friend s u v → is_friend (snd (accept_post s acting user_id)) u v.
Proof.
  unfold accept_post, is_friend.
  destruct (filter_first user_id acting s) as [[pk0 r0] |]; simpl; [| done].
  intros Huv. rewrite elem_of_union. by right.
Qed.

(** X2.  An accept keeps every friendship there was and adds at most the
    two rows joining the acting user and the user named in the call; a
    refused accept adds none. *)
Theorem accept_adds_only_the_pair
    (s : Store) (acting : Z) (user_id : option Z) :
  (∀ u v, is_friend s u v → is_friend (snd (accept_post s acting user_id)) u v) ∧
  (∀ u v, is_friend (snd (accept_post s acting user_id)) u v →
     is_friend s u v ∨
     (u = acting ∧ user_id = Some v) ∨ (v = acting ∧ user_id = Some u)) ∧
  (∀ e, fst (accept_post s acting user_id) = Err e →
     friends (snd (accept_post s acting user_id)) = friends s).
Proof.
  split; [intros u v; apply accept_post_keeps_friends |].
  unfold accept_post, is_friend.
  destruct (filter_first user_id acting s) as [[pk0 r0] |] eqn:Hf; simpl;
    [| by split; auto].
  apply list_find_Some in Hf as (_ & (Hfrom & _ & _) & _).
  split.
  - intros u v. rewrite !elem_of_union, !elem_of_singleton.
    intros [[[= -> ->] | [= -> ->]] | Hin]; auto.
  - intros e [=].
Qed.

Lemma accept_adds_only_the_pair_witness :
  is_friend (snd (accept_post store_settled 3 (Some 1))) 1 2 ∧
  (is_friend store_settled 3 1 ∨ (3 = 3 ∧ Some 1 = Some 1) ∨ (1 = 3 ∧ Some 1 = Some 3)).
Proof.
  destruct (accept_adds_only_the_pair store_settled 3 (Some 1)) as (Hkeep & Hnew & _).
  split.
  - apply Hkeep. in_friends.
  - apply Hnew. in_friends.
Defined.

Lemma step_keeps_friends (s : Store) (o : Op) (u v : Z) :
  is_friend s u v → is_friend (snd (step s o)) u v.
Proof.
  intros Huv. destruct o as [em nm pw | acting d now | acting uid | acting uid];
    try (unfold is_friend; by rewrite step_friends_other).
  simpl. unfold authenticated. destruct (user_exists s acting); [| done].
  by apply accept_post_keeps_friends.
Qed.

(** X3.  No sequence of calls ever removes a friendship: two users who
    are friends stay friends. *)
Theorem friendships_are_never_removed (s : Store) (ops : list Op) (u v : Z) :
  is_friend s u v → is_friend (run s ops) u v.
Proof.
  revert s. induction ops as [| o ops IH]; intros s Huv; [done |].
  rewrite run_cons. by apply IH, step_keeps_friends.
Qed.

Lemma friendships_are_never_removed_witness :
  is_friend (run store_settled [Reject 3 (Some 1); Send 2 (mkSendData (Some 1) None None) 9]) 1 2.
Proof.
  apply friendships_are_never_removed. in_friends.
Defined.

(** X4.  Over any sequence of calls a stored request is never deleted
    and keeps its sender, its receiver and its creation time; its status
    is the one it had unless it was pending. *)
Theorem request_rows_are_permanent
    (ops : list Op) (s : Store) (pk : nat) (r : FriendRequest) :
  requests s !! pk = Some r →
  ∃ r', requests (run s ops) !! pk = Some r' ∧
        from_user r' = from_user r ∧ to_user r' = to_user r ∧
        created_at r' = created_at r ∧
        (status r' = status r ∨ status r = pending).
Proof.
  revert s r. induction ops as [| o ops IH]; intros s r Hpk.
  - exists r. by repeat split; auto.
  - rewrite run_cons.
    destruct (step_evolves s o pk r Hpk) as (r1 & H1 & Hev).
    destruct (IH _ _ H1) as (r' & Hr' & Hf & Ht & Hc & Hs).
    exists r'. split; [done |].
    destruct Hev as [-> | [Hp [-> | ->]]]; simpl in *; repeat split; auto.
Qed.

Lemma request_rows_are_permanent_witness :
  ∃ r', requests (run store_one_pending [Accept 2 (Some 1); Reject 2 (Some 1)]) !! 0%nat
          = Some r' ∧
        from_user r' = 1 ∧ to_user r' = 2 ∧ created_at r' = 0%nat ∧
        (status r' = pending ∨ pending = pending).
Proof.
  apply (request_rows_are_permanent [Accept 2 (Some 1); Reject 2 (Some 1)]
           store_one_pending 0
           (mkFriendRequest 1 2 pending 0)).
  reflexivity.
Defined.

(** ** More invariants of the reachable stores *)

Lemma elem_of_insert_inv {A} (l : list A) (i : nat) (x y : A) :
  y ∈ <[i := x]> l →
  (y = x ∧ (i < length l)%nat) ∨ ∃ j, j ≠ i ∧ l !! j = Some y.
Proof.
  intros [j Hj]%list_elem_of_lookup.
  apply list_lookup_insert_Some in Hj as [(-> & <- & Hlt) | (Hne & Hj)].
  - by left.
  - right. exists j. split; [congruence | done].
Qed.

Lemma elem_of_insert_other {A} (l : list A) (i j : nat) (x y : A) :
  j ≠ i → l !! j = Some y → y ∈ <[i := x]> l.
Proof.
  intros Hne Hj. apply (list_elem_of_lookup_2 _ j).
  by rewrite list_lookup_insert_ne.
Qed.

Lemma user_exists_app (s : Store) (us : list User) (k : Z) :
  user_exists s k = true →
  user_exists (mkStore (users s ++ us) (requests s) (friends s)) k = true.
Proof.
  unfold user_exists. simpl. rewrite existsb_app. by intros ->.
Qed.

Lemma register_post_store (s : Store) (em nm pw : option string) :
  ∃ us, snd (register_post s em nm pw)
        = mkStore (users s ++ us) (requests s) (friends s).
Proof.
  unfold register_post. destruct em as [e |], pw as [p |];
    try (exists []; rewrite app_nil_r; by destruct s).
  destruct (existsb _ _).
  - exists []. rewrite app_nil_r. by destruct s.
  - by eexists [_].
Qed.

Lemma accept_post_users (s : Store) (acting : Z) (user_id : option Z) :
  users (snd (accept_post s acting user_id)) = users s.
Proof. unfold accept_post. by destruct (filter_first _ _ _) as [[??] |]. Qed.

Lemma reject_post_users (s : Store) (acting : Z) (user_id : option Z) :
  users (snd (reject_post s acting user_id)) = users s.
Proof. unfold reject_post. by destruct (filter_first _ _ _) as [[??] |]. Qed.

Lemma create_post_users (s : Store) (acting : Z) (d : SendData) (now : nat) :
  users (snd (create_post s acting d now)) = users s.
Proof. unfold create_post. by destruct (validated_to_user s d). Qed.

(** Registered users stay registered. *)
Lemma step_user_exists (s : Store) (o : Op) (k : Z) :
  user_exists s k = true → user_exists (snd (step s o)) k = true.
Proof.
  intros Hk. destruct o as [em nm pw | acting d now | acting uid | acting uid]; simpl.
  - destruct (register_post_store s em nm pw) as [us Hus].
    destruct (register_post s em nm pw) as [res s']. simpl in *. subst s'.
    by apply user_exists_app.
  - unfold authenticated. destruct (user_exists s acting); [| done]. simpl.
    unfold user_exists. by rewrite create_post_users.
  - unfold authenticated. destruct (user_exists s acting); [| done]. simpl.
    unfold user_exists. by rewrite accept_post_users.
  - unfold authenticated. destruct (user_exists s acting); [| done]. simpl.
    unfold user_exists. by rewrite reject_post_users.
Qed.

Lemma step_endpoints_registered (s : Store) (o : Op) :
  endpoints_registered s → endpoints_registered (snd (step s o)).
Proof.
  intros [Hreq Hfr].
  assert (Hmono : ∀ k, user_exists s k = true → user_exists (snd (step s o)) k = true)
    by (intros k; apply step_user_exists).
  destruct o as [em nm pw | acting d now | acting uid | acting uid].
  - split.
    + intros r Hr. simpl in Hr.
      pose proof (register_post_requests s em nm pw) as Heq.
      destruct (register_post s em nm pw) as [res s'] eqn:Hreg. simpl in *.
      rewrite Heq in Hr. destruct (Hreq r Hr).
      split; [apply (Hmono (from_user r)) | apply (Hmono (to_user r))]; done.
    + intros u v Huv. unfold is_friend in Huv.
      rewrite step_friends_other in Huv by done.
      destruct (Hfr u v Huv). by split; apply Hmono.
  - split.
    + intros r Hr. revert Hmono Hr. simpl. unfold authenticated.
      destruct (user_exists s acting) eqn:Hact; simpl.
      * unfold create_post, validated_to_user.
        destruct (data_to_user d) as [k |]; simpl;
          [| by intros Hm Hr; destruct (Hreq r Hr); split; apply Hm].
        destruct (user_exists s k) eqn:Hk; simpl;
          [| by intros Hm Hr; destruct (Hreq r Hr); split; apply Hm].
        intros Hm [Hr | ->%list_elem_of_singleton]%elem_of_app.
        -- destruct (Hreq r Hr). by split; apply Hm.
        -- by split; apply Hm.
      * intros Hm Hr. destruct (Hreq r Hr). by split; apply Hm.
    + intros u v Huv. unfold is_friend in Huv.
      rewrite step_friends_other in Huv by done.
      destruct (Hfr u v Huv). by split; apply Hmono.
  - revert Hmono. simpl. unfold authenticated.
    destruct (user_exists s acting) eqn:Hact; simpl; [| by intros _; split].
    unfold accept_post.
    destruct (filter_first uid acting s) as [[pk0 r0] |] eqn:Hf; simpl; [| by intros _; split].
    apply list_find_Some in Hf as (H0 & _ & _).
    assert (Hr0 : r0 ∈ requests s) by (by eapply list_elem_of_lookup_2).
    intros _. unfold endpoints_registered, user_exists, is_friend. simpl. split.
    + intros y Hy.
      destruct (save_endpoints _ _ _ _ _ H0 Hy) as (r & Hr & -> & ->). by apply Hreq.
    + intros u v. rewrite !elem_of_union, !elem_of_singleton.
      destruct (Hreq r0 Hr0) as [Hfrom _].
      intros [[[= -> ->] | [= -> ->]] | Hin]; [done | done | by apply Hfr].
  - split.
    + revert Hmono. simpl. unfold authenticated.
      destruct (user_exists s acting) eqn:Hact; simpl; [| by intros _].
      unfold reject_post.
      destruct (filter_first uid acting s) as [[pk0 r0] |] eqn:Hf; simpl; [| by intros _].
      apply list_find_Some in Hf as (H0 & _ & _).
      intros _ y Hy. unfold user_exists. simpl.
      destruct (save_endpoints _ _ _ _ _ H0 Hy) as (r & Hr & -> & ->). by apply Hreq.
    + intros u v Huv. unfold is_friend in Huv.
      rewrite step_friends_other in Huv by done.
      destruct (Hfr u v Huv). by split; apply Hmono.
Qed.

Lemma run_endpoints_registered (ops : list Op) : ∀ s,
  endpoints_registered s → endpoints_registered (run s ops).
Proof.
  induction ops as [| o ops IH]; intros s Hs; [done |].
  rewrite run_cons. by apply IH, step_endpoints_registered.
Qed.

(** X5.  In every store the calls can build from the empty one, the
    sender and the receiver of every stored request are registered
    users, and so are both users of every friendship. *)
Theorem requests_and_friends_join_registered_users (ops : list Op) :
  let s := run empty_store ops in
  (∀ r, r ∈ requests s →
        user_exists s (from_user r) = true ∧ user_exists s (to_user r) = true) ∧
  (∀ u v, is_friend s u v → user_exists s u = true ∧ user_exists s v = true).
Proof.
  apply (run_endpoints_registered ops empty_store). split.
  - intros r Hr. by apply elem_of_nil in Hr.
  - intros u v Huv. unfold is_friend in Huv. simpl in Huv.
    by apply elem_of_empty in Huv.
Qed.

Lemma requests_and_friends_join_registered_users_witness :
  user_exists (run empty_store ops_send_accept) 1 = true ∧
  user_exists (run empty_store ops_send_accept) 2 = true.
Proof.
  destruct (requests_and_friends_join_registered_users ops_send_accept) as [Hreq _].
  apply (Hreq (mkFriendRequest 1 2 accepted 0)).
  vm_compute. apply list_elem_of_here.
Defined.

(** Rows that are accepted before and after a rejection or a send are
    the same rows. *)
Lemma accepted_between_append (s : Store) (r : FriendRequest) (u v : Z) :
  status r ≠ accepted →
  accepted_between (mkStore (users s) (requests s ++ [r]) (friends s)) u v
  ↔ accepted_between s u v.
Proof.
  intros Hr. unfold accepted_between. simpl. split.
  - intros (y & [Hy | ->%list_elem_of_singleton]%elem_of_app & Hst & Huv); [eauto | done].
  - intros (y & Hy & Hst & Huv). exists y. rewrite elem_of_app. auto.
Qed.

Lemma accepted_between_save (s : Store) (pk0 : nat) (r0 : FriendRequest) (st : Status) (u v : Z) :
  requests s !! pk0 = Some r0 → status r0 = pending →
  accepted_between (save pk0 (set_status r0 st) s) u v ↔
  accepted_between s u v ∨
  (st = accepted ∧
   ((from_user r0 = u ∧ to_user r0 = v) ∨ (from_user r0 = v ∧ to_user r0 = u))).
Proof.
  intros H0 Hp. unfold accepted_between. simpl. split.
  - intros (y & Hy & Hst & Huv).
    apply elem_of_insert_inv in Hy as [[-> _] | (j & Hne & Hj)].
    + right. by split.
    + left. exists y. split; [by eapply list_elem_of_lookup_2 | done].
  - intros [(y & Hy & Hst & Huv) | [-> Huv]].
    + apply list_elem_of_lookup in Hy as [j Hj].
      assert (j ≠ pk0) by (intros ->; congruence).
      exists y. split; [by eapply elem_of_insert_other | done].
    + exists (set_status r0 accepted).
      split; [| done]. apply list_elem_of_insert. by eapply lookup_lt_Some.
Qed.

Lemma step_friends_match_accepted (s : Store) (o : Op) :
  friends_match_accepted s → friends_match_accepted (snd (step s o)).
Proof.
  intros Hinv u v. specialize (Hinv u v).
  destruct o as [em nm pw | acting d now | acting uid | acting uid].
  - unfold is_friend. rewrite step_friends_other by done. simpl.
    pose proof (register_post_requests s em nm pw) as Heq.
    destruct (register_post s em nm pw) as [res s']. simpl in *.
    unfold accepted_between in *. by rewrite Heq.
  - unfold is_friend. rewrite step_friends_other by done. simpl.
    unfold authenticated. destruct (user_exists s acting); [| done]. simpl.
    unfold create_post. destruct (validated_to_user s d) as [k |]; [| done]. simpl.
    by rewrite accepted_between_append.
  - simpl. unfold authenticated. destruct (user_exists s acting); [| done]. simpl.
    unfold accept_post.
    destruct (filter_first uid acting s) as [[pk0 r0] |] eqn:Hf; [| done]. simpl.
    apply list_find_Some in Hf as (H0 & (_ & Hto & Hp) & _).
    change (accepted_between ?s' u v)
      with (accepted_between (save pk0 (set_status r0 accepted) s) u v).
    rewrite (accepted_between_save s pk0 r0 accepted u v H0 Hp).
    unfold is_friend in *. simpl.
    rewrite !elem_of_union, !elem_of_singleton, <- Hinv, Hto.
    split.
    + intros [[[= -> ->] | [= -> ->]] | Hin]; auto.
    + intros [Hin | [_ [[<- <-] | [<- <-]]]]; auto.
  - unfold is_friend. rewrite step_friends_other by done. simpl.
    unfold authenticated. destruct (user_exists s acting); [| done]. simpl.
    unfold reject_post.
    destruct (filter_first uid acting s) as [[pk0 r0] |] eqn:Hf; [| done]. simpl.
    apply list_find_Some in Hf as (H0 & (_ & _ & Hp) & _).
    change (accepted_between ?s' u v)
      with (accepted_between (save pk0 (set_status r0 rejected) s) u v).
    rewrite (accepted_between_save s pk0 r0 rejected u v H0 Hp).
    unfold is_friend in Hinv. rewrite <- Hinv. split; [auto | by intros [? | [[=] _]]].
Qed.

Lemma run_friends_match_accepted (ops : list Op) : ∀ s,
  friends_match_accepted s → friends_match_accepted (run s ops).
Proof.
  induction ops as [| o ops IH]; intros s Hs; [done |].
  rewrite run_cons. by apply IH, step_friends_match_accepted.
Qed.

Lemma empty_store_friends_match_accepted : friends_match_accepted empty_store.
Proof.
  intros u v. unfold is_friend, accepted_between. simpl. split.
  - by intros ?%elem_of_empty.
  - by intros (r & ?%elem_of_nil & _).
Qed.

(** X6.  In every store the calls can build from the empty one, two
    users are friends exactly when some stored request between them, in
    either direction, is accepted: no friendship exists without an
    accepted request, and every accepted request left a friendship. *)
Theorem friends_exactly_where_accepted (ops : list Op) (u v : Z) :
  is_friend (run empty_store ops) u v ↔
  ∃ r, r ∈ requests (run empty_store ops) ∧ status r = accepted ∧
       ((from_user r = u ∧ to_user r = v) ∨ (from_user r = v ∧ to_user r = u)).
Proof.
  apply (run_friends_match_accepted ops empty_store empty_store_friends_match_accepted).
Qed.

(** X7.  In every store the calls can build from the empty one the
    friends relation is symmetric, and so are the friend lists: a
    registered user is listed among another's friends exactly when the
    other is listed among its own. *)
Theorem friend_lists_are_symmetric (ops : list Op) :
  let s := run empty_store ops in
  (∀ u v, is_friend s u v ↔ is_friend s v u) ∧
  (∀ a b, a ∈ users s → b ∈ users s →
          a ∈ friend_list s (id b) ↔ b ∈ friend_list s (id a)).
Proof.
  pose proof (run_friends_match_accepted ops empty_store
                empty_store_friends_match_accepted) as Hinv.
  assert (Hsym : ∀ u v, is_friend (run empty_store ops) u v ↔
                        is_friend (run empty_store ops) v u).
  { intros u v. rewrite (Hinv u v), (Hinv v u). unfold accepted_between.
    split; intros (r & Hr & Hst & Huv); exists r; tauto. }
  split; [done |].
  intros a b Ha Hb. unfold friend_list. rewrite !list_elem_of_filter.
  specialize (Hsym (id a) (id b)). unfold is_friend in Hsym. tauto.
Qed.

Lemma friend_lists_are_symmetric_witness :
  mkUser 1 "a@x.com" "A" ∈ friend_list (run empty_store ops_send_accept) 2 ↔
  mkUser 2 "b@x.com" "B" ∈ friend_list (run empty_store ops_send_accept) 1.
Proof.
  destruct (friend_lists_are_symmetric ops_send_accept) as [_ H].
  apply (H (mkUser 1 "a@x.com" "A") (mkUser 2 "b@x.com" "B")).
  - vm_compute. apply list_elem_of_here.
  - vm_compute. apply list_elem_of_further, list_elem_of_here.
Defined.

(** ** The pending list and the decisions *)

Lemma elem_of_pending_list (s : Store) (user : Z) (r : FriendRequest) :
  r ∈ pending_list s user ↔ r ∈ requests s ∧ to_user r = user ∧ status r = pending.
Proof. unfold pending_list. rewrite list_elem_of_filter. tauto. Qed.

Lemma accept_post_found (s : Store) (acting : Z) (user_id : option Z) pk r :
  filter_first user_id acting s = Some (pk, r) →
  accept_post s acting user_id =
    (Ok (set_status r accepted),
     friends_add acting (from_user r) (save pk (set_status r accepted) s)).
Proof. intros H. unfold accept_post. by rewrite H. Qed.

Lemma reject_post_found (s : Store) (acting : Z) (user_id : option Z) pk r :
  filter_first user_id acting s = Some (pk, r) →
  reject_post s acting user_id =
    (Ok (set_status r rejected), save pk (set_status r rejected) s).
Proof. intros H. unfold reject_post. by rewrite H. Qed.

(** X8.  An accept or a reject naming [other] succeeds exactly when the
    acting user's pending list shows a request from [other]. *)
Theorem decision_succeeds_iff_listed (s : Store) (acting other : Z) :
  ((∃ r, r ∈ pending_list s acting ∧ from_user r = other) ↔
   ∃ r' s', accept_post s acting (Some other) = (Ok r', s')) ∧
  ((∃ r, r ∈ pending_list s acting ∧ from_user r = other) ↔
   ∃ r' s', reject_post s acting (Some other) = (Ok r', s')).
Proof.
  assert (Hfind : (∃ r, r ∈ pending_list s acting ∧ from_user r = other) ↔
                  ∃ pk r, filter_first (Some other) acting s = Some (pk, r)).
  { split.
    - intros (r & (Hr & Hto & Hst)%elem_of_pending_list & Hfrom).
      destruct (list_find_elem_of (pending_from_to (Some other) acting) (requests s) r)
        as [[pk r0] Hf]; [done | by rewrite <- Hfrom |]. by exists pk, r0.
    - intros (pk & r & (Hpk & (Hfrom & Hto & Hst) & _)%list_find_Some).
      exists r. rewrite elem_of_pending_list.
      split; [| congruence]. split; [by eapply list_elem_of_lookup_2 | done]. }
  rewrite Hfind. split; split.
  - intros (pk & r & Hf). rewrite (accept_post_found _ _ _ _ _ Hf). eauto.
  - intros (r' & s' & Hok). unfold accept_post in Hok.
    destruct (filter_first (Some other) acting s) as [[pk r] |]; [eauto | discriminate].
  - intros (pk & r & Hf). rewrite (reject_post_found _ _ _ _ _ Hf). eauto.
  - intros (r' & s' & Hok). unfold reject_post in Hok.
    destruct (filter_first (Some other) acting s) as [[pk r] |]; [eauto | discriminate].
Qed.

(** The pending list of [x] around a row that is taken out of the
    pending state. *)
Lemma pending_list_save (s : Store) (pk : nat) (r0 : FriendRequest) (st : Status) (x : Z) :
  requests s !! pk = Some r0 → st ≠ pending →
  pending_list s x =
    filter (λ r, to_user r = x ∧ status r = pending) (take pk (requests s)) ++
    filter (λ r, to_user r = x ∧ status r = pending) [r0] ++
    filter (λ r, to_user r = x ∧ status r = pending) (drop (S pk) (requests s)) ∧
  pending_list (save pk (set_status r0 st) s) x =
    filter (λ r, to_user r = x ∧ status r = pending) (take pk (requests s)) ++
    filter (λ r, to_user r = x ∧ status r = pending) (drop (S pk) (requests s)).
Proof.
  intros Hpk Hst. unfold pending_list. simpl. split.
  - rewrite <- (take_drop_middle _ _ _ Hpk) at 1.
    rewrite filter_app. f_equal. by rewrite <- filter_app.
  - rewrite insert_take_drop by (by eapply lookup_lt_Some).
    rewrite filter_app, filter_cons_False; [done |].
    simpl. by intros [_ ?].
Qed.

(** X9.  A successful accept or reject takes exactly the selected
    request out of the acting user's pending list, keeping the others in
    order, and no call of either kind changes the pending list of any
    other user. *)
Theorem decision_removes_one_pending (s : Store) (acting : Z) (user_id : option Z) :
  (∀ r s', accept_post s acting user_id = (Ok r, s') →
     ∃ l1 l2 r0, r = set_status r0 accepted ∧
       pending_list s acting = l1 ++ r0 :: l2 ∧ pending_list s' acting = l1 ++ l2) ∧
  (∀ r s', reject_post s acting user_id = (Ok r, s') →
     ∃ l1 l2 r0, r = set_status r0 rejected ∧
       pending_list s acting = l1 ++ r0 :: l2 ∧ pending_list s' acting = l1 ++ l2) ∧
  (∀ x, x ≠ acting →
     pending_list (snd (accept_post s acting user_id)) x = pending_list s x ∧
     pending_list (snd (reject_post s acting user_id)) x = pending_list s x).
Proof.
  unfold accept_post, reject_post.
  destruct (filter_first user_id acting s) as [[pk r0] |] eqn:Hf;
    [| by repeat split].
  apply list_find_Some in Hf as (Hpk & (_ & Hto & Hp) & _).
  assert (Hin : filter (λ r, to_user r = acting ∧ status r = pending) [r0] = [r0])
    by (by rewrite filter_cons_True).
  split; [| split].
  - intros r s' [= <- <-].
    destruct (pending_list_save s pk r0 accepted acting Hpk) as [H1 H2]; [done |].
    rewrite Hin in H1. by eexists _, _, r0.
  - intros r s' [= <- <-].
    destruct (pending_list_save s pk r0 rejected acting Hpk) as [H1 H2]; [done |].
    rewrite Hin in H1. by eexists _, _, r0.
  - intros x Hx.
    assert (Hout : filter (λ r, to_user r = x ∧ status r = pending) [r0] = [])
      by (rewrite filter_cons_False; [done | intros [? _]; congruence]).
    destruct (pending_list_save s pk r0 accepted x Hpk) as [H1 H2]; [done |].
    destruct (pending_list_save s pk r0 rejected x Hpk) as [_ H3]; [done |].
    rewrite Hout in H1. simpl in H1. simpl. unfold pending_list in *. simpl in *.
    by rewrite H1, H2, H3.
Qed.

Lemma decision_removes_one_pending_witness :
  ∃ l1 l2 r0, mkFriendRequest 1 2 accepted 0 = set_status r0 accepted ∧
    pending_list store_two_pending 2 = l1 ++ r0 :: l2 ∧
    pending_list (snd (accept_post store_two_pending 2 (Some 1))) 2 = l1 ++ l2.
Proof.
  destruct (decision_removes_one_pending store_two_pending 2 (Some 1)) as (H & _ & _).
  exact (H (mkFriendRequest 1 2 accepted 0)
           (snd (accept_post store_two_pending 2 (Some 1))) eq_refl).
Defined.

(** X10.  A successful send puts the new request at the end of the
    receiver's pending list and changes no other pending list and no
    friend list. *)
Theorem send_appends_to_pending_list
    (s : Store) (acting : Z) (d : SendData) (now : nat)
    (r : FriendRequest) (s' : Store) :
  create_post s acting d now = (Ok r, s') →
  pending_list s' (to_user r) = pending_list s (to_user r) ++ [r] ∧
  (∀ x, x ≠ to_user r → pending_list s' x = pending_list s x) ∧
  (∀ x, friend_list s' x = friend_list s x).
Proof.
  unfold create_post. intros H.
  destruct (validated_to_user s d) as [k |]; [| discriminate].
  injection H as <- <-. unfold pending_list, friend_list. simpl.
  split; [| split].
  - by rewrite filter_app, filter_cons_True.
  - intros x Hx. rewrite filter_app, filter_cons_False; [by rewrite app_nil_r |].
    simpl. by intros [? _].
  - done.
Qed.

Lemma send_appends_to_pending_list_witness :
  let r := mkFriendRequest 2 1 pending 7 in
  let s' := snd (create_post store_one_pending 2 (mkSendData (Some 1) None None) 7) in
  pending_list s' (to_user r) = pending_list store_one_pending (to_user r) ++ [r] ∧
  (∀ x, x ≠ to_user r → pending_list s' x = pending_list store_one_pending x) ∧
  (∀ x, friend_list s' x = friend_list store_one_pending x).
Proof.
  apply (send_appends_to_pending_list store_one_pending 2
           (mkSendData (Some 1) None None) 7%nat).
  reflexivity.
Defined.

(** ** How calls compose *)

(** X11.  Whatever the store holds (earlier rejected or accepted
    requests between the two users included), once [a] has sent a
    request to a registered user [b], an accept of [a] by [b] succeeds,
    answers with an accepted request from [a] to [b], and makes the two
    each other's friends. *)
Theorem send_then_accept_befriends
    (s : Store) (a b : Z) (d : SendData) (now : nat) :
  data_to_user d = Some b → user_exists s b = true →
  ∃ (r : FriendRequest) (s2 : Store),
    accept_post (snd (create_post s a d now)) b (Some a) = (Ok r, s2) ∧
    from_user r = a ∧ to_user r = b ∧ status r = accepted ∧
    is_friend s2 a b ∧ is_friend s2 b a.
Proof.
  intros Hd Hb. rewrite (create_post_succeeds s a b d now Hd Hb). simpl.
  set (sent := mkFriendRequest a b pending now).
  set (s1 := mkStore (users s) (requests s ++ [sent]) (friends s)).
  destruct (first_pending_exists s1 b a (length (requests s)) sent)
    as (pk & r0 & Hfirst & _); [by apply list_lookup_middle | done |].
  rewrite (accept_post_first _ _ _ _ _ Hfirst).
  destruct Hfirst as (_ & (Hfrom & Hto & _) & _). injection Hfrom as Hfrom.
  eexists _, _. split; [done |]. unfold is_friend. simpl. rewrite Hfrom.
  do 3 (split; [done |]).
  rewrite !elem_of_union, !elem_of_singleton. auto.
Qed.

Lemma send_then_accept_befriends_witness :
  ∃ (r : FriendRequest) (s2 : Store),
    accept_post (snd (create_post store_settled 3 (mkSendData (Some 2) None None) 4))
      2 (Some 3) = (Ok r, s2) ∧
    from_user r = 3 ∧ to_user r = 2 ∧ status r = accepted ∧
    is_friend s2 3 2 ∧ is_friend s2 2 3.
Proof.
  apply (send_then_accept_befriends store_settled 3 2
           (mkSendData (Some 2) None None) 4%nat); reflexivity.
Defined.

(** Looking up a pending request is not disturbed by a row that moves
    out of the pending state, unless the lookup was for that row. *)
Lemma list_find_insert_other {A} (P : A → Prop) `{∀ x, Decision (P x)}
    (l : list A) (i : nat) (x y : A) :
  l !! i = Some y → ¬ P y → ¬ P x →
  list_find P (<[i := x]> l) = list_find P l.
Proof.
  revert i. induction l as [| z l IH]; intros i Hi Hy Hx; [done |].
  destruct i as [| i]; simpl in *.
  - injection Hi as ->. by rewrite !decide_False.
  - destruct (decide (P z)); [done |]. by rewrite IH.
Qed.

Lemma filter_first_after_save (s : Store) (a1 a2 : Z) (u1 u2 : option Z)
    (pk : nat) (r : FriendRequest) (st : Status) (F : gset (Z * Z)) :
  (a1, u1) ≠ (a2, u2) →
  filter_first u1 a1 s = Some (pk, r) → st ≠ pending →
  filter_first u2 a2 (mkStore (users s) (<[pk := set_status r st]> (requests s)) F)
    = filter_first u2 a2 s.
Proof.
  intros Hne (Hpk & (Hfrom & Hto & _) & _)%list_find_Some Hst.
  unfold filter_first. simpl. apply (list_find_insert_other _ _ _ _ r); [done | |].
  - intros (Hfrom' & Hto' & _). apply Hne. congruence.
  - by intros (_ & _ & ?).
Qed.

Lemma union_swap (A B F : gset (Z * Z)) : A ∪ (B ∪ F) = B ∪ (A ∪ F).
Proof. by rewrite !(assoc_L (∪)), (comm_L (∪) A B). Qed.

Lemma filter_first_rows_differ (s : Store) (a1 a2 : Z) (u1 u2 : option Z) pk1 r1 pk2 r2 :
  (a1, u1) ≠ (a2, u2) →
  filter_first u1 a1 s = Some (pk1, r1) →
  filter_first u2 a2 s = Some (pk2, r2) →
  pk1 ≠ pk2.
Proof.
  intros Hne (H1 & (Hf1 & Ht1 & _) & _)%list_find_Some
             (H2 & (Hf2 & Ht2 & _) & _)%list_find_Some ->.
  apply Hne. congruence.
Qed.

(** X12.  Decisions about different requests do not interfere: when two
    calls differ in the acting user or in the user they name, accepting
    in one and accepting or rejecting in the other leave the same store
    in either order, and so do two rejections. *)
Theorem decisions_on_different_pairs_commute
    (s : Store) (a1 a2 : Z) (u1 u2 : option Z) :
  (a1, u1) ≠ (a2, u2) →
  snd (accept_post (snd (accept_post s a1 u1)) a2 u2)
    = snd (accept_post (snd (accept_post s a2 u2)) a1 u1) ∧
  snd (reject_post (snd (accept_post s a1 u1)) a2 u2)
    = snd (accept_post (snd (reject_post s a2 u2)) a1 u1) ∧
  snd (reject_post (snd (reject_post s a1 u1)) a2 u2)
    = snd (reject_post (snd (reject_post s a2 u2)) a1 u1).
Proof.
  intros Hne.
  assert (Hne' : (a2, u2) ≠ (a1, u1)) by congruence.
  pose proof (λ pk r st F H, filter_first_after_save s a1 a2 u1 u2 pk r st F Hne H) as E1.
  pose proof (λ pk r st F H, filter_first_after_save s a2 a1 u2 u1 pk r st F Hne' H) as E2.
  destruct (filter_first u1 a1 s) as [[pk1 r1] |] eqn:H1;
    destruct (filter_first u2 a2 s) as [[pk2 r2] |] eqn:H2.
  - pose proof (filter_first_rows_differ _ _ _ _ _ _ _ _ _ Hne H1 H2) as Hpk.
    rewrite (accept_post_found _ _ _ _ _ H1), (accept_post_found _ _ _ _ _ H2),
      (reject_post_found _ _ _ _ _ H1), (reject_post_found _ _ _ _ _ H2).
    unfold accept_post, reject_post, friends_add, save. simpl.
    rewrite !(E1 pk1 r1) by done. rewrite !(E2 pk2 r2) by done.
    rewrite ?H1, ?H2. simpl.
    rewrite !(list_insert_insert_ne _ pk2 pk1) by done.
    repeat split; f_equal. apply union_swap.
  - rewrite (accept_post_found _ _ _ _ _ H1), (reject_post_found _ _ _ _ _ H1),
      (accept_post_none _ _ _ H2), (reject_post_none _ _ _ H2).
    unfold accept_post, reject_post, friends_add, save. simpl.
    rewrite !(E1 pk1 r1) by done. by rewrite ?H1, ?H2.
  - rewrite (accept_post_found _ _ _ _ _ H2), (reject_post_found _ _ _ _ _ H2),
      (accept_post_none _ _ _ H1), (reject_post_none _ _ _ H1).
    unfold accept_post, reject_post, friends_add, save. simpl.
    rewrite !(E2 pk2 r2) by done. by rewrite ?H1, ?H2.
  - rewrite (accept_post_none _ _ _ H1), (reject_post_none _ _ _ H1),
      (accept_post_none _ _ _ H2), (reject_post_none _ _ _ H2). simpl.
    by rewrite (accept_post_none _ _ _ H1), (reject_post_none _ _ _ H1),
      (accept_post_none _ _ _ H2), (reject_post_none _ _ _ H2).
Qed.

Lemma decisions_on_different_pairs_commute_witness :
  snd (accept_post (snd (accept_post store_crossed 2 (Some 1))) 1 (Some 2))
    = snd (accept_post (snd (accept_post store_crossed 1 (Some 2))) 2 (Some 1)) ∧
  snd (reject_post (snd (accept_post store_crossed 2 (Some 1))) 1 (Some 2))
    = snd (accept_post (snd (reject_post store_crossed 1 (Some 2))) 2 (Some 1)) ∧
  snd (reject_post (snd (reject_post store_crossed 2 (Some 1))) 1 (Some 2))
    = snd (reject_post (snd (reject_post store_crossed 1 (Some 2))) 2 (Some 1)).
Proof.
  apply (decisions_on_different_pairs_commute store_crossed 2 1 (Some 1) (Some 2)).
  intros [=].
Defined.

(** X13.  The answer of a successful accept or reject is the row as it
    is now stored: a request addressed to the acting user, sent by the
    user named in the call, with the new status. *)
Theorem decision_answer_is_the_stored_row
    (s : Store) (acting : Z) (user_id : option Z) (r : FriendRequest) (s' : Store) :
  accept_post s acting user_id = (Ok r, s') ∨ reject_post s acting user_id = (Ok r, s') →
  to_user r = acting ∧ Some (from_user r) = user_id ∧
  status r ≠ pending ∧ r ∈ requests s' ∧
  length (requests s') = length (requests s).
Proof.
  unfold accept_post, reject_post.
  destruct (filter_first user_id acting s) as [[pk r0] |] eqn:Hf;
    [| by intros [[=] | [=]]].
  apply list_find_Some in Hf as (Hpk & (Hfrom & Hto & _) & _).
  apply lookup_lt_Some in Hpk.
  intros [[= <- <-] | [= <- <-]]; simpl; rewrite length_insert;
    (repeat split; [done | done | done | by apply list_elem_of_insert]).
Qed.

Lemma decision_answer_is_the_stored_row_witness :
  to_user (mkFriendRequest 1 2 rejected 0) = 2 ∧
  Some (from_user (mkFriendRequest 1 2 rejected 0)) = Some 1 ∧
  status (mkFriendRequest 1 2 rejected 0) ≠ pending ∧
  mkFriendRequest 1 2 rejected 0 ∈ requests (snd (reject_post store_crossed 2 (Some 1))) ∧
  length (requests (snd (reject_post store_crossed 2 (Some 1))))
    = length (requests store_crossed).
Proof.
  apply (decision_answer_is_the_stored_row store_crossed 2 (Some 1)).
  right. reflexivity.
Defined.

(** ** Sending, call by call *)

(** X14.  The body of the send view stores something exactly when
    [to_user] names a registered user, and then appends one pending row
    from the caller to that user and touches nothing else; a missing or
    unknown [to_user] leaves the store as it was.  A send call that
    changes the store was made by a registered caller, names a
    registered [to_user], and changed the store in just that way (a call
    can be refused before the body runs, and then stores nothing). *)
Theorem send_body_stores_iff_valid_target
    (s : Store) (acting : Z) (d : SendData) (now : nat) :
  (snd (create_post s acting d now) ≠ s ↔
   ∃ k, data_to_user d = Some k ∧ user_exists s k = true) ∧
  (∀ k, data_to_user d = Some k → user_exists s k = true →
        snd (create_post s acting d now)
          = mkStore (users s) (requests s ++ [mkFriendRequest acting k pending now])
                    (friends s)) ∧
  (snd (step s (Send acting d now)) ≠ s →
   user_exists s acting = true ∧
   ∃ k, data_to_user d = Some k ∧ user_exists s k = true ∧
        snd (step s (Send acting d now))
          = mkStore (users s) (requests s ++ [mkFriendRequest acting k pending now])
                    (friends s)).
Proof.
  assert (Hbody : ∀ k, data_to_user d = Some k → user_exists s k = true →
        snd (create_post s acting d now)
          = mkStore (users s) (requests s ++ [mkFriendRequest acting k pending now])
                    (friends s)).
  { intros k Hd Hk. by rewrite (create_post_succeeds s acting k d now Hd Hk). }
  assert (Hiff : snd (create_post s acting d now) ≠ s ↔
                 ∃ k, data_to_user d = Some k ∧ user_exists s k = true).
  { split.
    - unfold create_post, validated_to_user.
      destruct (data_to_user d) as [k |]; simpl; [| done].
      destruct (user_exists s k) eqn:Hk; simpl; [eauto | done].
    - intros (k & Hd & Hk) Heq. rewrite (Hbody k Hd Hk) in Heq.
      apply (f_equal (λ s, length (requests s))) in Heq. simpl in Heq.
      rewrite length_app in Heq. simpl in Heq. lia. }
  split; [done |]. split; [done |].
  simpl. unfold authenticated.
  destruct (user_exists s acting); simpl; [| done].
  intros (k & Hd & Hk)%Hiff. split; [done |].
  exists k. by rewrite (Hbody k Hd Hk).
Qed.

Lemma send_body_stores_iff_valid_target_witness :
  user_exists store_one_pending 2 = true ∧
  ∃ k, data_to_user (mkSendData (Some 1) None None) = Some k ∧
       user_exists store_one_pending k = true ∧
       snd (step store_one_pending (Send 2 (mkSendData (Some 1) None None) 3))
         = mkStore (users store_one_pending)
                   (requests store_one_pending ++ [mkFriendRequest 2 k pending 3])
                   (friends store_one_pending).
Proof.
  destruct (send_body_stores_iff_valid_target store_one_pending 2
              (mkSendData (Some 1) None None) 3%nat) as (_ & _ & H).
  apply H. intros Heq.
  apply (f_equal (λ s, length (requests s))) in Heq. vm_compute in Heq. discriminate.
Defined.

(** ** Letter case in the search *)

Lemma lower_ascii_idemp (c : ascii) : lower_ascii (lower_ascii c) = lower_ascii c.
Proof. destruct c as [[] [] [] [] [] [] [] []]; reflexivity. Qed.

Lemma lower_idemp (x : string) : lower (lower x) = lower x.
Proof. induction x as [| c x IH]; simpl; [done |]. by rewrite lower_ascii_idemp, IH. Qed.

(** X15.  The search does not see the letter case of the query: two
    queries that differ only in case return the same list, and folding
    the query to lower case before searching changes nothing. *)
Theorem search_ignores_query_case (s : Store) (user : Z) (q : string) :
  (∀ q', lower q = lower q' → search s user q = search s user q') ∧
  search s user (lower q) = search s user q.
Proof.
  assert (H : ∀ q', lower q = lower q' → search s user q = search s user q').
  { intros q' Hq. unfold search, iexact, icontains. by rewrite Hq. }
  split; [done |]. symmetry. apply H. by rewrite lower_idemp.
Qed.

Lemma search_ignores_query_case_witness :
  search store_alice 1 "alice@x.com" = search store_alice 1 "ALICE@X.COM".
Proof.
  destruct (search_ignores_query_case store_alice 1 "alice@x.com") as [H _].
  apply H. reflexivity.
Defined.
